(** * Mesh-analysis circuit solver: embedding of [main.py] and its properties

    The program reads a circuit description (number of meshes, per-mesh
    source and own resistors, pairwise shared resistors), builds the
    resistance matrix and the source vector, solves [R * I = V] and derives
    the current and the dissipated power of every resistor.

    Conventions of the embedding:
    - Python floats are idealised as exact rationals ([Q]); rounding,
      infinities and NaN are outside the model.  Equality of computed
      quantities is therefore stated with [==] ([Qeq]) whenever the two sides
      are different expressions.
    - Python dictionaries are association lists in insertion order, updated
      with [dict_set] (assignment to an existing key keeps its position).
    - Exceptions are values of type [excepcion]; fallible code returns
      [res A].
    - [numpy.linalg.solve] is library code: [main] takes it as a parameter.
    - Memory is unbounded: [np.zeros] always returns its array.  The
      exceptions it raises for a number of meshes too large to allocate
      (outside every [try] of [main]) are outside the model. *)

From Stdlib Require Import ZArith QArith Qabs Lqa Lia Ascii.
From stdpp Require Import base list strings pretty.

Local Open Scope Q_scope.

(** ** Python values, exceptions and results *)

(** The values stored under the keys ['Corriente (A)'] and ['Potencia (W)']
    are either numbers or strings. *)
Inductive valor_py : Type :=
| PyNum (q : Q)
| PyStr (s : string).

Inductive excepcion : Type :=
| IndexError (indice : Z) (eje tam : nat)
| ValueError
| EOFError
| LinAlgError.

(** [str(e)], as interpolated in [f'Error: {e}'].  Only [IndexError] can
    reach the handler of [calcular_potencia]; the other messages are listed
    for totality. *)
Definition str_excepcion (e : excepcion) : string :=
  match e with
  | IndexError i eje n =>
      "index " +:+ pretty i +:+ " is out of bounds for axis " +:+ pretty eje
        +:+ " with size " +:+ pretty n
  | ValueError => "invalid literal"
  | EOFError => "EOF when reading a line"
  | LinAlgError => "Singular matrix"
  end.

Inductive res (A : Type) : Type :=
| Ok (a : A)
| Raise (e : excepcion).
Arguments Ok {A} a.
Arguments Raise {A} e.

Definition res_bind {A B} (m : res A) (k : A -> res B) : res B :=
  match m with
  | Ok a => k a
  | Raise e => Raise e
  end.

Declare Scope res_scope.
Delimit Scope res_scope with res.
Notation "'let!' x ':=' m 'in' k" := (res_bind m (fun x => k))
  (at level 10, x name, m at level 100, k at level 200) : res_scope.

(** ** numpy arrays *)

(** [a[i]] on a one-dimensional array with a Python integer index:
    indices [-len(a) .. -1] count from the end, anything outside
    [-len(a) .. len(a) - 1] raises [IndexError]. *)
Definition np_getitem (a : list Q) (i : Z) : res Q :=
  let n := Z.of_nat (length a) in
  let pos := if (i <? 0)%Z then (i + n)%Z else i in
  if ((0 <=? pos)%Z && (pos <? n)%Z)%bool then
    match a !! Z.to_nat pos with
    | Some x => Ok x
    | None => Raise (IndexError i 0 (length a))
    end
  else Raise (IndexError i 0 (length a)).

(** ** Dictionaries (insertion ordered) *)

Definition dict (V : Type) : Type := list (string * V).

Fixpoint dict_get {V} (d : dict V) (k : string) : option V :=
  match d with
  | [] => None
  | (k', v) :: d' => if String.eqb k' k then Some v else dict_get d' k
  end.

(** [d[k] = v] *)
Fixpoint dict_set {V} (d : dict V) (k : string) (v : V) : dict V :=
  match d with
  | [] => [(k, v)]
  | (k', v') :: d' =>
      if String.eqb k' k then (k, v) :: d' else (k', v') :: dict_set d' k v
  end.

Definition claves {V} (d : dict V) : list string := map fst d.
Definition valores {V} (d : dict V) : list V := map snd d.

(** ** Resistors and component results *)

(** A registry entry is [{'valor': r, 'malla': i}] (own resistor of mesh [i])
    or [{'valor': r, 'mallas': (i, j)}] (resistor shared by meshes [i], [j]). *)
Inductive topologia : Type :=
| Malla (i : Z)
| Mallas (i j : Z).

Record info : Type := mk_info { valor : Q; topo : topologia }.

(** The two dictionaries [calcular_potencia] stores: the measured one
    [{'R': r, 'Corriente (A)': |c|, 'Potencia (W)': p}] and the error marker
    [{'R': r, 'Corriente (A)': 'ERROR', 'Potencia (W)': 'Error: ...'}]. *)
Inductive resultado : Type :=
| Medido (r corriente potencia : Q)
| Fallido (r : Q) (mensaje : string).

Definition campo_R (d : resultado) : Q :=
  match d with
  | Medido r _ _ => r
  | Fallido r _ => r
  end.

Definition campo_corriente (d : resultado) : valor_py :=
  match d with
  | Medido _ c _ => PyNum c
  | Fallido _ _ => PyStr "ERROR"
  end.

Definition campo_potencia (d : resultado) : valor_py :=
  match d with
  | Medido _ _ p => PyNum p
  | Fallido _ m => PyStr m
  end.

(** ** [calcular_potencia] *)

(** The current through a resistor, from the mesh currents (the body of the
    [if 'malla' in info ... elif 'mallas' in info ...]). *)
Definition corriente_resistor (t : topologia) (corrientes_malla : list Q)
  : res Q :=
  match t with
  | Malla i => np_getitem corrientes_malla i
  | Mallas i j =>
      (let! a := np_getitem corrientes_malla i in
       let! b := np_getitem corrientes_malla j in
       Ok (a - b))%res
  end.

(** One iteration of the loop: the [try] block and its [except]. *)
Definition resolver (corrientes_malla : list Q) (inf : info) : resultado :=
  let r := valor inf in
  match corriente_resistor (topo inf) corrientes_malla with
  | Ok c => Medido r (Qabs c) (c ^ 2 * r)
  | Raise e => Fallido r ("Error: " +:+ str_excepcion e)
  end.

(** [resultados_resistencia[nombre] = ...], in either branch. *)
Definition almacenar (corrientes_malla : list Q)
    (resultados_resistencia : dict resultado) (par : string * info)
  : dict resultado :=
  let '(nombre, inf) := par in
  dict_set resultados_resistencia nombre (resolver corrientes_malla inf).

Definition calcular_potencia (resistencias : dict info)
    (corrientes_malla : list Q) : dict resultado :=
  fold_left (almacenar corrientes_malla) resistencias [].

(** [sum(d['Potencia (W)'] for d in resultados.values()
         if isinstance(d['Potencia (W)'], (int, float)))]: the [PyNum]
    branch is the [isinstance] test, the sum starts from [0]. *)
Definition potencia_total (resultados_potencia : dict resultado) : Q :=
  fold_left
    (fun acc d =>
       match campo_potencia d with
       | PyNum p => acc + p
       | PyStr _ => acc
       end)
    (valores resultados_potencia) 0.


(** ** Console input

    A line typed by the user, classified by what [int()] and [float()] make
    of it. *)
Inductive linea : Type :=
| Entero (z : Z)       (* accepted by [int()] and by [float()] *)
| Decimal (q : Q)      (* accepted by [float()] only *)
| NoNumerica.          (* rejected by both: [ValueError] *)

Definition py_int (l : linea) : res Z :=
  match l with
  | Entero z => Ok z
  | Decimal _ | NoNumerica => Raise ValueError
  end.

Definition py_float (l : linea) : res Q :=
  match l with
  | Entero z => Ok (inject_Z z)
  | Decimal q => Ok q
  | NoNumerica => Raise ValueError
  end.

(** ** The local state of [main] and its statements *)

Record estado : Type := mk_estado {
  entrada : list linea;            (* lines [input()] has not read yet *)
  matriz_R : list (list Q);
  vector_V : list Q;
  resistencias : dict info;
  suma_r_propias : Q
}.

Definition prog (A : Type) : Type := estado -> res (A * estado).

Definition ret {A} (a : A) : prog A := fun st => Ok (a, st).

Definition bind {A B} (m : prog A) (k : A -> prog B) : prog B :=
  fun st =>
    match m st with
    | Ok (a, st') => k a st'
    | Raise e => Raise e
    end.

Definition lift {A} (r : res A) : prog A :=
  fun st =>
    match r with
    | Ok a => Ok (a, st)
    | Raise e => Raise e
    end.

Declare Scope prog_scope.
Delimit Scope prog_scope with prog.
Notation "x <- m ;; k" := (bind m (fun x => k))
  (at level 100, m at next level, right associativity) : prog_scope.
Notation "m ;; k" := (bind m (fun _ => k))
  (at level 100, right associativity) : prog_scope.

Local Open Scope prog_scope.

(** [for x in xs: cuerpo] *)
Fixpoint for_ {X} (xs : list X) (cuerpo : X -> prog unit) : prog unit :=
  match xs with
  | [] => ret tt
  | x :: xs' => cuerpo x ;; for_ xs' cuerpo
  end.

(** [range(a, b)] *)
Definition range (a b : nat) : list nat := seq a (b - a).

(** [input(...)]: the prompt is not modelled; at end of input Python raises
    [EOFError]. *)
Definition input : prog linea :=
  fun st =>
    match entrada st with
    | [] => Raise EOFError
    | l :: ls =>
        Ok (l, mk_estado ls (matriz_R st) (vector_V st) (resistencias st)
                 (suma_r_propias st))
    end.

(** Reading and writing a cell of a two-dimensional array with indices that
    come from [range]: [None] when an index is out of bounds. *)
Definition mget (M : list (list Q)) (i j : nat) : option Q :=
  match M !! i with
  | Some fila => fila !! j
  | None => None
  end.

Definition mset (M : list (list Q)) (i j : nat) (v : Q)
  : option (list (list Q)) :=
  match M !! i with
  | Some fila =>
      if decide (j < length fila)%nat then Some (<[i := <[j := v]> fila]> M)
      else None
  | None => None
  end.

(** The exception numpy raises for the cell [(i, j)] of [M]. *)
Definition fuera_de_limites (M : list (list Q)) (i j : nat) : excepcion :=
  match M !! i with
  | Some fila => IndexError (Z.of_nat j) 1 (length fila)
  | None => IndexError (Z.of_nat i) 0 (length M)
  end.

(** [vector_V[i] = v] *)
Definition asignar_vector_V (i : nat) (v : Q) : prog unit :=
  fun st =>
    if decide (i < length (vector_V st))%nat then
      Ok (tt, mk_estado (entrada st) (matriz_R st) (<[i := v]> (vector_V st))
                (resistencias st) (suma_r_propias st))
    else Raise (IndexError (Z.of_nat i) 0 (length (vector_V st))).

(** [matriz_R[i, j] = v] *)
Definition asignar_matriz_R (i j : nat) (v : Q) : prog unit :=
  fun st =>
    match mset (matriz_R st) i j v with
    | Some M =>
        Ok (tt, mk_estado (entrada st) M (vector_V st) (resistencias st)
                  (suma_r_propias st))
    | None => Raise (fuera_de_limites (matriz_R st) i j)
    end.

(** [matriz_R[i, j] += v] *)
Definition sumar_matriz_R (i j : nat) (v : Q) : prog unit :=
  fun st =>
    match mget (matriz_R st) i j with
    | Some x => asignar_matriz_R i j (x + v)%Q st
    | None => Raise (fuera_de_limites (matriz_R st) i j)
    end.

(** [suma_r_propias = v] *)
Definition asignar_suma_r_propias (v : Q) : prog unit :=
  fun st =>
    Ok (tt, mk_estado (entrada st) (matriz_R st) (vector_V st)
              (resistencias st) v).

Definition leer_suma_r_propias : prog Q :=
  fun st => Ok (suma_r_propias st, st).

(** [resistencias[nombre] = inf] *)
Definition registrar (nombre : string) (inf : info) : prog unit :=
  fun st =>
    Ok (tt, mk_estado (entrada st) (matriz_R st) (vector_V st)
              (dict_set (resistencias st) nombre inf) (suma_r_propias st)).

(** [f'R{i+1}_p{j+1}'] and [f'R_c{i+1}-{j+1}'] *)
Definition nombre_propia (i j : nat) : string :=
  "R" +:+ pretty (i + 1)%nat +:+ "_p" +:+ pretty (j + 1)%nat.

Definition nombre_compartida (i j : nat) : string :=
  "R_c" +:+ pretty (i + 1)%nat +:+ "-" +:+ pretty (j + 1)%nat.

(** ** The matrix builder (sections 1 and 2 of [main]) *)

(** Body of the loop over the own resistors of mesh [i]. *)
Definition leer_resistencia_propia (i j : nat) : prog unit :=
  l <- input ;;
  r_val <- lift (py_float l) ;;
  s <- leer_suma_r_propias ;;
  asignar_suma_r_propias (s + r_val)%Q ;;
  registrar (nombre_propia i j) (mk_info r_val (Malla (Z.of_nat i))).

(** Body of the first loop: source and own resistors of mesh [i]. *)
Definition configurar_malla (i : nat) : prog unit :=
  l <- input ;;
  v_fuentes <- lift (py_float l) ;;
  asignar_vector_V i v_fuentes ;;
  l <- input ;;
  num_r_propias <- lift (py_int l) ;;
  asignar_suma_r_propias 0%Q ;;
  for_ (range 0 (Z.to_nat num_r_propias)) (leer_resistencia_propia i) ;;
  s <- leer_suma_r_propias ;;
  asignar_matriz_R i i s.

(** Body of the second loop: the resistor shared by meshes [i] and [j]. *)
Definition configurar_compartida (i j : nat) : prog unit :=
  l <- input ;;
  r_comp <- lift (py_float l) ;;
  if Qlt_le_dec 0 r_comp then
    sumar_matriz_R i i r_comp ;;
    sumar_matriz_R j j r_comp ;;
    asignar_matriz_R i j (- r_comp)%Q ;;
    asignar_matriz_R j i (- r_comp)%Q ;;
    registrar (nombre_compartida i j)
      (mk_info r_comp (Mallas (Z.of_nat i) (Z.of_nat j)))
  else ret tt.

Definition construir (N : nat) : prog unit :=
  for_ (range 0 N) configurar_malla ;;
  for_ (range 0 N) (fun i =>
    for_ (range (i + 1) N) (fun j => configurar_compartida i j)).

(** [np.zeros((N, N))], [np.zeros(N)] and the empty registry.
    [suma_r_propias] is not bound yet; it is assigned before it is read. *)
Definition estado_inicial (N : nat) (lineas : list linea) : estado :=
  mk_estado lineas (replicate N (replicate N 0%Q)) (replicate N 0%Q) [] 0%Q.


(** ** Solving and reporting (section 3 of [main]) *)

(** What a run of [main] shows to the user.  The numbers of the report are
    kept as they are computed, before their rendering with [:.4f]. *)
Inductive salida : Type :=
| ErrorMallasNoPositivo                  (* "El numero de mallas debe ser positivo." *)
| ErrorDebeIngresarNumero                (* "Debe ingresar un numero." *)
| ErrorEntradaNoValida                   (* "Entrada no valida. Debe ser un numero." *)
| SistemaIndeterminado                   (* "*** ERROR: Sistema Indeterminado ***" *)
| ErrorInesperado (e : excepcion)        (* "Ha ocurrido un error inesperado" *)
| Informe (tabla_I : list Q) (tabla_R : list (string * (Q * Q * Q)))
          (total : Q)
| NoCapturada (e : excepcion).           (* exception that leaves [main] *)

Fixpoint mapM {A B} (f : A -> res B) (l : list A) : res (list B) :=
  match l with
  | [] => Ok []
  | x :: l' =>
      (let! y := f x in
       let! ys := mapM f l' in
       Ok (y :: ys))%res
  end.

(** [f"{v:.4f}"]: a string has no format code ['f']. *)
Definition formatear (v : valor_py) : res Q :=
  match v with
  | PyNum q => Ok q
  | PyStr _ => Raise ValueError
  end.

(** One row of the component table. *)
Definition fila_tabla_R (fila : string * resultado)
  : res (string * (Q * Q * Q)) :=
  let '(nombre, datos) := fila in
  (let! c := formatear (campo_corriente datos) in
   let! p := formatear (campo_potencia datos) in
   Ok (nombre, (campo_R datos, c, p)))%res.

Section Main.

(** [np.linalg.solve]: raises [LinAlgError] on a singular matrix. *)
Variable linalg_solve : list (list Q) -> list Q -> res (list Q).

(** The last [try] block of [main] and its two handlers. *)
Definition resolver_e_informar (N : nat) (st : estado) : salida :=
  match
    (let! corrientes_malla := linalg_solve (matriz_R st) (vector_V st) in
     let resultados_potencia :=
       calcular_potencia (resistencias st) corrientes_malla in
     let! tabla_I :=
       mapM (fun i => np_getitem corrientes_malla (Z.of_nat i)) (range 0 N) in
     let! tabla_R := mapM fila_tabla_R resultados_potencia in
     Ok (Informe tabla_I tabla_R (potencia_total resultados_potencia)))%res
  with
  | Ok s => s
  | Raise LinAlgError => SistemaIndeterminado
  | Raise e => ErrorInesperado e
  end.

Definition main (lineas : list linea) : salida :=
  match lineas with
  | [] => NoCapturada EOFError
  | l :: resto =>
      match py_int l with
      | Raise ValueError => ErrorDebeIngresarNumero
      | Raise e => NoCapturada e
      | Ok N =>
          if (N <=? 0)%Z then ErrorMallasNoPositivo
          else
            match construir (Z.to_nat N) (estado_inicial (Z.to_nat N) resto) with
            | Raise ValueError => ErrorEntradaNoValida
            | Raise e => NoCapturada e
            | Ok (_, st) => resolver_e_informar (Z.to_nat N) st
            end
      end
  end.

End Main.

(** ** An exact linear solver

    Reference instance for the [linalg_solve] parameter: Gaussian elimination
    with partial pivoting on the augmented rows, in exact arithmetic; a
    column without a non-zero pivot raises [LinAlgError]. *)

(** The row with the largest leading coefficient and the remaining rows. *)
Fixpoint elegir_pivote (filas : list (list Q))
  : option (list Q * list (list Q)) :=
  match filas with
  | [] => None
  | f :: fs =>
      match elegir_pivote fs with
      | None => Some (f, [])
      | Some (p, otras) =>
          if Qle_bool (Qabs (hd 0%Q p)) (Qabs (hd 0%Q f))
          then Some (f, p :: otras)
          else Some (p, f :: otras)
      end
  end.

(** [f - m * p], coefficient by coefficient. *)
Fixpoint restar_multiplo (m : Q) (f p : list Q) : list Q :=
  match f, p with
  | x :: f', y :: p' => (x - m * y)%Q :: restar_multiplo m f' p'
  | _, _ => []
  end.

(** [b - a_1 * x_1 - ... - a_k * x_k] for the row [a_1; ...; a_k; b]. *)
Fixpoint despejar (fila xs : list Q) : Q :=
  match fila, xs with
  | a :: fila', x :: xs' => (despejar fila' xs' - a * x)%Q
  | b :: _, [] => b
  | [], _ => 0%Q
  end.

Fixpoint gauss (n : nat) (filas : list (list Q)) : res (list Q) :=
  match n with
  | O => Ok []
  | S n' =>
      match elegir_pivote filas with
      | None => Raise LinAlgError
      | Some (p, otras) =>
          let a := hd 0%Q p in
          if Qeq_bool a 0 then Raise LinAlgError
          else
            (let! xs :=
               gauss n'
                 (map (fun f => restar_multiplo (hd 0%Q f / a) (tl f) (tl p))
                      otras) in
             Ok ((despejar (tl p) xs / a)%Q :: xs))%res
      end
  end.

Definition linalg_solve_exacto (M : list (list Q)) (V : list Q)
  : res (list Q) :=
  if decide (length V = length M
             /\ Forall (fun fila => length fila = length M) M)
  then gauss (length M) (zip_with (fun fila b => fila ++ [b]) M V)
  else Raise LinAlgError.

(** ** Quantities named by the specification *)

Definition suma_lista (l : list Q) : Q := fold_right Qplus 0%Q l.

(** Own resistor of mesh [i]. *)
Definition es_propia_de (i : nat) (inf : info) : bool :=
  match topo inf with
  | Malla k => (k =? Z.of_nat i)%Z
  | Mallas _ _ => false
  end.

(** Shared resistor with mesh [i] as one of its two meshes. *)
Definition toca (i : nat) (inf : info) : bool :=
  match topo inf with
  | Malla _ => false
  | Mallas a b => ((a =? Z.of_nat i)%Z || (b =? Z.of_nat i)%Z)%bool
  end.

(** Shared resistor between meshes [i] and [j], in either order. *)
Definition entre (i j : nat) (inf : info) : bool :=
  match topo inf with
  | Malla _ => false
  | Mallas a b =>
      (((a =? Z.of_nat i)%Z && (b =? Z.of_nat j)%Z)
       || ((a =? Z.of_nat j)%Z && (b =? Z.of_nat i)%Z))%bool
  end.

Definition positiva (inf : info) : bool :=
  if Qlt_le_dec 0 (valor inf) then true else false.

Definition suma_valores (sel : info -> bool) (reg : dict info) : Q :=
  suma_lista (map valor (List.filter sel (valores reg))).

Definition suma_propias (reg : dict info) (i : nat) : Q :=
  suma_valores (es_propia_de i) reg.

Definition suma_compartidas_de (reg : dict info) (i : nat) : Q :=
  suma_valores (fun inf => toca i inf && positiva inf)%bool reg.

Definition suma_compartidas_entre (reg : dict info) (i j : nat) : Q :=
  suma_valores (fun inf => entre i j inf && positiva inf)%bool reg.

Definition simetrica (M : list (list Q)) : Prop :=
  forall i j : nat, mget M i j = mget M j i.

(** The current the specification assigns to a resistor: [I_i] for an own
    resistor, [I_i - I_j] for a shared one (indices counted from [0]). *)
Definition corriente_malla (corrientes_malla : list Q) (i : Z) : Q :=
  nth (Z.to_nat i) corrientes_malla 0%Q.

Definition corriente_bruta (t : topologia) (corrientes_malla : list Q) : Q :=
  match t with
  | Malla i => corriente_malla corrientes_malla i
  | Mallas i j =>
      (corriente_malla corrientes_malla i
       - corriente_malla corrientes_malla j)%Q
  end.

Definition indice_valido (N : nat) (i : Z) : Prop :=
  (0 <= i < Z.of_nat N)%Z.

(** Every index of the topology is one of [0 .. N-1]. *)
Definition en_rango (N : nat) (t : topologia) : Prop :=
  match t with
  | Malla i => indice_valido N i
  | Mallas i j => indice_valido N i /\ indice_valido N j
  end.

(** Some index of the topology is negative or at least [N]. *)
Definition fuera_de_rango (N : nat) (t : topologia) : Prop :=
  match t with
  | Malla i => ~ indice_valido N i
  | Mallas i j => ~ indice_valido N i \/ ~ indice_valido N j
  end.

(** Some index of the topology is outside [-N .. N-1], the indices a numpy
    array of length [N] accepts. *)
Definition indice_rechazado (N : nat) (i : Z) : Prop :=
  (i < - Z.of_nat N \/ Z.of_nat N <= i)%Z.

Definition rechazada (N : nat) (t : topologia) : Prop :=
  match t with
  | Malla i => indice_rechazado N i
  | Mallas i j => indice_rechazado N i \/ indice_rechazado N j
  end.

(** An entry in the error state, and the sum of the powers of the others. *)
Definition en_error (d : resultado) : bool :=
  match d with
  | Medido _ _ _ => false
  | Fallido _ _ => true
  end.

Definition potencia_medida (d : resultado) : Q :=
  match d with
  | Medido _ _ p => p
  | Fallido _ _ => 0%Q
  end.

Definition suma_potencias_sin_error (resultados : dict resultado) : Q :=
  suma_lista
    (map potencia_medida
       (List.filter (fun d => negb (en_error d)) (valores resultados))).


(** ** Scenario 2 of the specification

    Two meshes, sources [10 V] and [0 V], own resistors of [2] and [3] ohm,
    a shared resistor of [1] ohm: the lines typed after the number of
    meshes. *)
Definition lineas_escenario_2 : list linea :=
  [Entero 10; Entero 1; Entero 2;      (* mesh 1: source, one resistor *)
   Entero 0; Entero 1; Entero 3;       (* mesh 2: source, one resistor *)
   Entero 1].                          (* shared between meshes 1 and 2 *)

Definition registro_escenario_2 : dict info :=
  [("R1_p1", mk_info 2 (Malla 0)); ("R2_p1", mk_info 3 (Malla 1));
   ("R_c1-2", mk_info 1 (Mallas 0 1))].

Definition estado_escenario_2 : estado :=
  mk_estado [] [[3; - (1)]; [- (1); 4]] [10; 0] registro_escenario_2 3.

(** ** Invariants of the builder *)

(** The cell [(i, j)] of the matrix, as the registry determines it. *)
Definition celda_esperada (reg : dict info) (i j : nat) : Q :=
  if decide (i = j) then suma_propias reg i + suma_compartidas_de reg i
  else - suma_compartidas_entre reg i j.

(** [(a, b)] comes before [(i, j)] in the order the loops visit pairs. *)
Definition antes (i j a b : nat) : Prop :=
  (a < i \/ (a = i /\ b < j))%nat.

(** A registry entry made by the builder: an own resistor [b] of mesh [a]
    with [P a b], or a resistor shared by meshes [a < b] with [C a b]. *)
Definition registrada (P C : nat -> nat -> Prop) (par : string * info)
  : Prop :=
  (exists a b, fst par = nombre_propia a b
     /\ topo (snd par) = Malla (Z.of_nat a) /\ P a b)
  \/ (exists a b, fst par = nombre_compartida a b
        /\ topo (snd par) = Mallas (Z.of_nat a) (Z.of_nat b)
        /\ (a < b)%nat /\ C a b).

(** After the first [k] meshes are configured. *)
Definition inv_mallas (N k : nat) (st : estado) : Prop :=
  (forall i j : nat, (i < N)%nat -> (j < N)%nat ->
     exists x, mget (matriz_R st) i j = Some x
       /\ x == (if decide (i = j /\ i < k)%nat
                then suma_propias (resistencias st) i else 0))
  /\ Forall (registrada (fun a _ => (a < k)%nat) (fun _ _ => False))
       (resistencias st).

(** While the own resistors of mesh [i] are read, [j] of them so far;
    [M0] and [reg0] are the matrix and the registry when the mesh started. *)
Definition inv_propias (i : nat) (M0 : list (list Q)) (reg0 : dict info)
    (j : nat) (st : estado) : Prop :=
  matriz_R st = M0
  /\ suma_r_propias st == suma_propias (resistencias st) i
  /\ Forall (registrada (antes i j) (fun _ _ => False)) (resistencias st)
  /\ (forall a : nat, a <> i ->
        suma_propias (resistencias st) a == suma_propias reg0 a).

(** While the shared resistors are read; [C] tells the pairs visited. *)
Definition inv_compartidas (N : nat) (C : nat -> nat -> Prop) (st : estado)
  : Prop :=
  (forall i j : nat, (i < N)%nat -> (j < N)%nat ->
     exists x, mget (matriz_R st) i j = Some x
       /\ x == celda_esperada (resistencias st) i j)
  /\ Forall (registrada (fun _ _ => True) C) (resistencias st).

(** A string without the separators ["_"] and ["-"] of the names. *)
Fixpoint sin_separador (s : string) : Prop :=
  match s with
  | EmptyString => True
  | String c s' => c <> "_"%char /\ c <> "-"%char /\ sin_separador s'
  end.

(** ** Shapes and outcomes of a run *)

(** The arrays have the shapes [np.zeros((N, N))] and [np.zeros(N)] gave
    them. *)
Definition tamanos (N : nat) (st : estado) : Prop :=
  length (matriz_R st) = N
  /\ Forall (fun fila => length fila = N) (matriz_R st)
  /\ length (vector_V st) = N.

(** The exceptions that come from the console: a line that does not parse,
    or no line left. *)
Definition error_de_entrada (e : excepcion) : Prop :=
  e = ValueError \/ e = EOFError.

(** From a state with [P], the statement either ends in a state with [Q] or
    raises an exception that comes from the console. *)
Definition termina {A} (P : estado -> Prop) (m : prog A)
    (Q : A -> estado -> Prop) : Prop :=
  forall st, P st ->
    match m st with
    | Ok (a, st') => Q a st'
    | Raise e => error_de_entrada e
    end.

(** A registry entry that names meshes of the circuit: an own resistor of a
    mesh [0 .. N-1], or a positive resistor shared by meshes [i < j < N]. *)
Definition entrada_valida (N : nat) (par : string * info) : Prop :=
  match topo (snd par) with
  | Malla i => indice_valido N i
  | Mallas i j =>
      indice_valido N i /\ indice_valido N j /\ (i < j)%Z
      /\ 0 < valor (snd par)
  end.

(** The row of the component table for a resistor whose current is read
    without error, and the power it adds to the total. *)
Definition fila_medida (corrientes_malla : list Q) (par : string * info)
  : string * (Q * Q * Q) :=
  (fst par,
   (valor (snd par),
    Qabs (corriente_bruta (topo (snd par)) corrientes_malla),
    corriente_bruta (topo (snd par)) corrientes_malla ^ 2 * valor (snd par))).

Definition potencia_de (corrientes_malla : list Q) (inf : info) : Q :=
  match corriente_resistor (topo inf) corrientes_malla with
  | Ok c => c ^ 2 * valor inf
  | Raise _ => 0
  end.

(** The indices an array of length [N] accepts, and the position each one
    addresses: an index below [0] counts from the end. *)
Definition indice_aceptado (N : nat) (i : Z) : Prop :=
  (- Z.of_nat N <= i < Z.of_nat N)%Z.

Definition aceptada (N : nat) (t : topologia) : Prop :=
  match t with
  | Malla i => indice_aceptado N i
  | Mallas i j => indice_aceptado N i /\ indice_aceptado N j
  end.

Definition posicion (N : nat) (i : Z) : Z :=
  if (i <? 0)%Z then (i + Z.of_nat N)%Z else i.

Definition topologia_efectiva (N : nat) (t : topologia) : topologia :=
  match t with
  | Malla i => Malla (posicion N i)
  | Mallas i j => Mallas (posicion N i) (posicion N j)
  end.

(** ** A circuit as it is typed

    The lines of a complete description: for each mesh the line of its
    source and the lines of its own resistors (the count typed between them
    is their number), then, for each mesh [i], the lines of the resistors it
    shares with the meshes [i+1 .. N-1]. *)
Record tecleado : Type := mk_tecleado {
  t_mallas : list (linea * list linea);
  t_compartidas : list (list linea)
}.

(** The number [float()] reads from a line. *)
Definition valor_de (l : linea) : Q :=
  match py_float l with
  | Ok q => q
  | Raise _ => 0
  end.

Definition numerica (l : linea) : Prop := l <> NoNumerica.

Definition lineas_de_malla (m : linea * list linea) : list linea :=
  fst m :: Entero (Z.of_nat (length (snd m))) :: snd m.

Definition lineas_de (c : tecleado) : list linea :=
  concat (map lineas_de_malla (t_mallas c)) ++ concat (t_compartidas c).

(** Row [i] of the shared resistors has one line for each mesh after [i]. *)
Fixpoint filas_completas (N i : nat) (filas : list (list linea)) : Prop :=
  match filas with
  | [] => True
  | f :: fs =>
      length f = (N - (i + 1))%nat /\ Forall numerica f
      /\ filas_completas N (S i) fs
  end.

Definition bien_tecleado (c : tecleado) : Prop :=
  Forall (fun m => numerica (fst m) /\ Forall numerica (snd m)) (t_mallas c)
  /\ length (t_compartidas c) = length (t_mallas c)
  /\ filas_completas (length (t_mallas c)) 0 (t_compartidas c).

(** The registry such a description leads to, in the order of the lines. *)
Fixpoint registro_propias_desde (i j : nat) (ls : list linea) : dict info :=
  match ls with
  | [] => []
  | l :: ls' =>
      (nombre_propia i j, mk_info (valor_de l) (Malla (Z.of_nat i)))
        :: registro_propias_desde i (S j) ls'
  end.

Fixpoint registro_mallas_desde (i : nat) (ms : list (linea * list linea))
  : dict info :=
  match ms with
  | [] => []
  | m :: ms' =>
      registro_propias_desde i 0 (snd m) ++ registro_mallas_desde (S i) ms'
  end.

Fixpoint registro_compartidas_desde (i j : nat) (ls : list linea)
  : dict info :=
  match ls with
  | [] => []
  | l :: ls' =>
      (if Qlt_le_dec 0 (valor_de l)
       then [(nombre_compartida i j,
              mk_info (valor_de l) (Mallas (Z.of_nat i) (Z.of_nat j)))]
       else [])
        ++ registro_compartidas_desde i (S j) ls'
  end.

Fixpoint registro_filas_desde (i : nat) (filas : list (list linea))
  : dict info :=
  match filas with
  | [] => []
  | f :: fs =>
      registro_compartidas_desde i (i + 1) f ++ registro_filas_desde (S i) fs
  end.

Definition registro_de (c : tecleado) : dict info :=
  registro_mallas_desde 0 (t_mallas c)
    ++ registro_filas_desde 0 (t_compartidas c).

(** Scenario 2 as a typed description. *)
Definition tecleado_escenario_2 : tecleado :=
  mk_tecleado [(Entero 10, [Entero 2]); (Entero 0, [Entero 3])]
    [[Entero 1]; []].

(** ** Power balance *)

(** [f 0 + ... + f (N-1)] *)
Definition suma_indices (N : nat) (f : nat -> Q) : Q :=
  suma_lista (map f (seq 0 N)).

Definition celda (M : list (list Q)) (i j : nat) : Q :=
  default 0 (mget M i j).

Definition componente (v : list Q) (i : nat) : Q := nth i v 0.

(** The quadratic form of the matrix at the currents: the sum over [i], [j]
    of [I_i * R_ij * I_j]. *)
Definition forma_cuadratica (N : nat) (M : list (list Q)) (I : list Q) : Q :=
  suma_indices N (fun i =>
    suma_indices N (fun j => componente I i * celda M i j * componente I j)).

(** Row [i] of [R * I]. *)
Definition fila_por_corrientes (N : nat) (M : list (list Q)) (I : list Q)
    (i : nat) : Q :=
  suma_indices N (fun j => celda M i j * componente I j).

(** [I] solves [R * I = V]. *)
Definition resuelve (N : nat) (M : list (list Q)) (V I : list Q) : Prop :=
  forall i : nat, (i < N)%nat ->
    fila_por_corrientes N M I i == componente V i.

(** What one registry entry adds to the cell [(i, j)]. *)
Definition aporte (inf : info) (i j : nat) : Q :=
  if decide (i = j) then
    (if es_propia_de i inf then valor inf else 0)
    + (if (toca i inf && positiva inf)%bool then valor inf else 0)
  else
    - (if (entre i j inf && positiva inf)%bool then valor inf else 0).

(** ** The component table and the total

    Lines 152-167 of [main] as a function of the mapping they read: the
    rows of the component table are rendered first, the total is computed
    after them. *)
Definition tabla_y_total (resultados_potencia : dict resultado)
  : res (list (string * (Q * Q * Q)) * Q) :=
  (let! tabla_R := mapM fila_tabla_R resultados_potencia in
   Ok (tabla_R, potencia_total resultados_potencia))%res.


(** * Properties *)

(** ** Dictionaries *)

Section Dict.
Context {V : Type}.
Implicit Types (d : dict V) (k : string) (v : V).

Lemma dict_get_set_eq d k v : dict_get (dict_set d k v) k = Some v.
Proof.
  induction d as [|[k' v'] d IH]; simpl.
  - by rewrite String.eqb_refl.
  - destruct (String.eqb_spec k' k) as [->|Hne]; simpl.
    + by rewrite String.eqb_refl.
    + by destruct (String.eqb_spec k' k).
Qed.

Lemma dict_get_set_ne d k k' v :
  k <> k' -> dict_get (dict_set d k v) k' = dict_get d k'.
Proof.
  intros Hne. induction d as [|[k0 v0] d IH]; simpl.
  - by destruct (String.eqb_spec k k').
  - destruct (String.eqb_spec k0 k) as [->|Hk]; simpl.
    + by destruct (String.eqb_spec k k').
    + by rewrite IH.
Qed.

Lemma dict_get_None d k : k ∉ claves d -> dict_get d k = None.
Proof.
  induction d as [|[k0 v0] d IH]; simpl; [done|].
  rewrite not_elem_of_cons. intros [Hne Hd].
  destruct (String.eqb_spec k0 k); [congruence | auto].
Qed.

Lemma dict_get_Some_elem d k v : dict_get d k = Some v -> (k, v) ∈ d.
Proof.
  induction d as [|[k0 v0] d IH]; simpl; [done|].
  destruct (String.eqb_spec k0 k) as [->|Hne].
  - intros [= ->]. apply list_elem_of_here.
  - intros H. apply list_elem_of_further. auto.
Qed.

(** Assigning to a key that is not there yet appends the entry. *)
Lemma dict_set_nueva d k v : k ∉ claves d -> dict_set d k v = d ++ [(k, v)].
Proof.
  induction d as [|[k0 v0] d IH]; simpl; [done|].
  rewrite not_elem_of_cons. intros [Hne Hd].
  destruct (String.eqb_spec k0 k); [congruence|].
  by rewrite IH.
Qed.

(** Assigning to a key that is already there keeps the list of keys. *)
Lemma claves_dict_set_existente d k v :
  k ∈ claves d -> claves (dict_set d k v) = claves d.
Proof.
  induction d as [|[k0 v0] d IH]; intros Hin.
  - inversion Hin.
  - cbn [dict_set]. destruct (String.eqb_spec k0 k) as [->|Hne]; [done|].
    apply elem_of_cons in Hin as [Heq|Hin]; [simpl in Heq; congruence|].
    unfold claves in *. simpl. by rewrite IH.
Qed.

Lemma claves_dict_set_nueva d k v :
  k ∉ claves d -> claves (dict_set d k v) = claves d ++ [k].
Proof.
  intros Hk. rewrite dict_set_nueva by done.
  unfold claves. by rewrite map_app.
Qed.

(** The keys of a dictionary stay distinct under assignment. *)
Lemma NoDup_claves_dict_set d k v :
  NoDup (claves d) -> NoDup (claves (dict_set d k v)).
Proof.
  intros Hnd. destruct (decide (k ∈ claves d)) as [Hin|Hin].
  - by rewrite claves_dict_set_existente.
  - rewrite claves_dict_set_nueva by done.
    apply NoDup_app. repeat split; [done| |apply NoDup_singleton].
    intros x Hx Hxk. apply list_elem_of_singleton in Hxk as ->. done.
Qed.

End Dict.

(** ** The resolver loop *)

Section Resolver.
Variable corrientes_malla : list Q.

(** Resistors processed later do not touch the entry of [k]. *)
Lemma fold_paso_get_otro reg acc k :
  k ∉ claves reg -> dict_get (fold_left (almacenar corrientes_malla) reg acc) k = dict_get acc k.
Proof.
  revert acc. induction reg as [|[k0 inf0] reg IH]; intros acc; simpl; [done|].
  rewrite not_elem_of_cons. intros [Hne Hk].
  rewrite IH by done. by apply dict_get_set_ne.
Qed.

Lemma fold_paso_get reg acc k inf :
  NoDup (claves reg) -> (k, inf) ∈ reg ->
  dict_get (fold_left (almacenar corrientes_malla) reg acc) k = Some (resolver corrientes_malla inf).
Proof.
  revert acc. induction reg as [|[k0 inf0] reg IH]; intros acc Hnd Hin.
  - inversion Hin.
  - simpl in *. apply NoDup_cons in Hnd as [Hk0 Hnd].
    apply elem_of_cons in Hin as [[= -> ->]|Hin].
    + rewrite fold_paso_get_otro by done. apply dict_get_set_eq.
    + by apply IH.
Qed.

Lemma fold_paso_claves reg acc :
  NoDup (claves acc ++ claves reg) ->
  claves (fold_left (almacenar corrientes_malla) reg acc) = claves acc ++ claves reg.
Proof.
  revert acc. induction reg as [|[k0 inf0] reg IH]; intros acc Hnd; simpl.
  - by rewrite app_nil_r.
  - simpl in Hnd.
    assert (k0 ∉ claves acc) as Hk0.
    { apply NoDup_app in Hnd as (_ & Hdis & _). intros Hin.
      apply (Hdis k0 Hin), list_elem_of_here. }
    assert (claves (dict_set acc k0 (resolver corrientes_malla inf0))
            = claves acc ++ [k0]) as Hcl.
    { by apply claves_dict_set_nueva. }
    rewrite IH; rewrite Hcl, <- app_assoc; done.
Qed.

Lemma calcular_potencia_get reg k inf :
  NoDup (claves reg) -> (k, inf) ∈ reg ->
  dict_get (calcular_potencia reg corrientes_malla) k
  = Some (resolver corrientes_malla inf).
Proof. apply fold_paso_get. Qed.

Lemma calcular_potencia_claves reg :
  NoDup (claves reg) ->
  claves (calcular_potencia reg corrientes_malla) = claves reg.
Proof. intros Hnd. unfold calcular_potencia. by rewrite fold_paso_claves. Qed.

End Resolver.


(** ** Indexing the mesh currents *)

Lemma np_getitem_valido (a : list Q) (i : Z) :
  indice_valido (length a) i -> np_getitem a i = Ok (corriente_malla a i).
Proof.
  unfold indice_valido, np_getitem, corriente_malla. intros [H0 Hn].
  destruct (Z.ltb_spec i 0) as [?|_]; [lia|].
  destruct (Z.leb_spec 0 i) as [_|?]; [|lia].
  destruct (Z.ltb_spec i (Z.of_nat (length a))) as [_|?]; [|lia].
  cbn [andb].
  destruct (a !! Z.to_nat i) as [x|] eqn:Hx.
  - by rewrite (nth_lookup_Some _ _ _ _ Hx).
  - apply lookup_ge_None in Hx. lia.
Qed.

Lemma np_getitem_rechazado (a : list Q) (i : Z) :
  indice_rechazado (length a) i ->
  np_getitem a i = Raise (IndexError i 0 (length a)).
Proof.
  unfold indice_rechazado, np_getitem. intros Hi.
  destruct (Z.ltb_spec i 0) as [Hneg|Hpos].
  - destruct (Z.leb_spec 0 (i + Z.of_nat (length a))) as [?|_];
      [|done].
    destruct Hi; lia.
  - destruct (Z.ltb_spec i (Z.of_nat (length a))) as [?|_];
      [destruct Hi; lia|].
    by rewrite andb_false_r.
Qed.

(** Indices [-N .. -1] count from the end of the array. *)
Lemma np_getitem_negativo (a : list Q) (i : Z) :
  (- Z.of_nat (length a) <= i < 0)%Z ->
  np_getitem a i = Ok (corriente_malla a (i + Z.of_nat (length a))).
Proof.
  unfold np_getitem, corriente_malla. intros [Hlo Hhi].
  destruct (Z.ltb_spec i 0) as [_|?]; [|lia].
  destruct (Z.leb_spec 0 (i + Z.of_nat (length a))) as [_|?]; [|lia].
  destruct (Z.ltb_spec (i + Z.of_nat (length a)) (Z.of_nat (length a)))
    as [_|?]; [|lia].
  cbn [andb].
  destruct (a !! Z.to_nat (i + Z.of_nat (length a))) as [x|] eqn:Hx.
  - by rewrite (nth_lookup_Some _ _ _ _ Hx).
  - apply lookup_ge_None in Hx. lia.
Qed.

Lemma resolver_en_rango (I : list Q) (inf : info) :
  en_rango (length I) (topo inf) ->
  resolver I inf
  = Medido (valor inf) (Qabs (corriente_bruta (topo inf) I))
      (corriente_bruta (topo inf) I ^ 2 * valor inf).
Proof.
  unfold resolver, corriente_resistor, corriente_bruta, en_rango.
  destruct (topo inf) as [i|i j].
  - intros Hi. by rewrite np_getitem_valido.
  - intros [Hi Hj]. by rewrite !np_getitem_valido.
Qed.

Lemma resolver_rechazada (I : list Q) (inf : info) :
  rechazada (length I) (topo inf) ->
  exists k : Z,
    resolver I inf
    = Fallido (valor inf)
        ("Error: " +:+ str_excepcion (IndexError k 0 (length I))).
Proof.
  unfold resolver, corriente_resistor, rechazada.
  destruct (topo inf) as [i|i j].
  - intros Hi. exists i. by rewrite np_getitem_rechazado.
  - intros Hij.
    destruct (np_getitem I i) as [a|e] eqn:Ha; cbn [res_bind].
    + destruct Hij as [Hi|Hj].
      * rewrite np_getitem_rechazado in Ha by done. discriminate.
      * exists j. by rewrite np_getitem_rechazado.
    + exists i. unfold np_getitem in Ha.
      repeat case_match; simplify_eq; done.
Qed.

Lemma potencia_no_negativa (c r : Q) : 0 <= r -> 0 <= c ^ 2 * r.
Proof. intros Hr. nra. Qed.

(** Swapping the two mesh currents gives the very same power, numerator and
    denominator. *)
Lemma potencia_intercambio (a b r : Q) : (a - b) ^ 2 * r = (b - a) ^ 2 * r.
Proof.
  destruct a as [an ad], b as [bn bd], r as [rn rd].
  unfold Qpower, Qpower_positive, pow_pos, Qminus, Qplus, Qopp, Qmult. simpl.
  f_equal; [ring|].
  f_equal. by rewrite (Pos.mul_comm bd ad).
Qed.

(** ** Summing the powers *)

Lemma fold_potencias_suma (ds : list resultado) (acc : Q) :
  fold_left
    (fun acc d =>
       match campo_potencia d with
       | PyNum p => acc + p
       | PyStr _ => acc
       end) ds acc
  == acc + suma_lista
             (map potencia_medida
                (List.filter (fun d => negb (en_error d)) ds)).
Proof.
  revert acc. induction ds as [|d ds IH]; intros acc; simpl.
  - ring.
  - rewrite IH. destruct d; simpl; ring.
Qed.

Lemma potencia_total_suma (rs : dict resultado) :
  potencia_total rs == suma_potencias_sin_error rs.
Proof.
  unfold potencia_total, suma_potencias_sin_error.
  rewrite fold_potencias_suma. ring.
Qed.

(** ** Properties of the resolver and of the aggregate *)

(** For a resistor whose mesh indices are in range, the resolver stores
    the absolute value of the raw current ([I_i] for an own resistor,
    [I_i - I_j] for a shared one) and the power [raw^2 * r]; for a resistance
    that is not negative (the data model has [value > 0]) this power is not
    negative, whatever the sign of the raw current.  The registry is a
    dictionary: its keys are distinct. *)
Theorem calcular_potencia_en_rango
    (reg : dict info) (I : list Q) (nombre : string) (inf : info) :
  NoDup (claves reg) ->
  (nombre, inf) ∈ reg ->
  en_rango (length I) (topo inf) ->
  let c := corriente_bruta (topo inf) I in
  dict_get (calcular_potencia reg I) nombre
  = Some (Medido (valor inf) (Qabs c) (c ^ 2 * valor inf))
  /\ c ^ 2 * valor inf == c * c * valor inf
  /\ (0 <= valor inf -> 0 <= c ^ 2 * valor inf).
Proof.
  intros Hnd Hin Hr c. split; [|split].
  - rewrite (calcular_potencia_get I reg nombre inf Hnd Hin).
    by rewrite resolver_en_rango.
  - ring.
  - apply potencia_no_negativa.
Qed.

Lemma calcular_potencia_en_rango_witness :
  dict_get
    (calcular_potencia
       [("R1_p1", mk_info 2 (Malla 0)); ("R_c1-2", mk_info 4 (Mallas 0 1))]
       [1; 3]) "R_c1-2"
  = Some (Medido 4 (Qabs (1 - 3)) ((1 - 3) ^ 2 * 4))
  /\ 0 <= (1 - 3) ^ 2 * 4.
Proof.
  destruct (calcular_potencia_en_rango
              [("R1_p1", mk_info 2 (Malla 0));
               ("R_c1-2", mk_info 4 (Mallas 0 1))]
              [1; 3] "R_c1-2" (mk_info 4 (Mallas 0 1)))
    as (Hget & _ & Hpos).
  - vm_compute. repeat constructor;
      rewrite ?elem_of_cons, ?elem_of_nil; intros H; intuition discriminate.
  - apply list_elem_of_further, list_elem_of_here.
  - vm_compute. intuition discriminate.
  - split; [exact Hget | apply Hpos; vm_compute; discriminate].
Defined.

(** C3: the reported power is [raw^2 * r], and the claim that it is never
    negative fails on the code for a negative resistance, which [main]
    accepts for an own resistor (its value is read without a sign check,
    unlike a shared value).  One mesh, source [10], one own resistor of
    [-2]: the builder registers it, the mesh current is [-5], and the
    resolver and the report show a power of [-50]. *)
Theorem potencia_negativa_con_resistencia_negativa :
  construir 1 (estado_inicial 1 [Entero 10; Entero 1; Entero (-2)])
  = Ok (tt, mk_estado [] [[-2]] [10] [("R1_p1", mk_info (-2) (Malla 0))] (-2))
  /\ calcular_potencia [("R1_p1", mk_info (-2) (Malla 0))] [-5]
     = [("R1_p1", Medido (-2) 5 (-50))]
  /\ (exists c p total : Q,
        main linalg_solve_exacto [Entero 1; Entero 10; Entero 1; Entero (-2)]
        = Informe [c] [("R1_p1", (-2, Qabs c, p))] total
        /\ c == -5 /\ p == c ^ 2 * -2 /\ p == -50 /\ p < 0
        /\ total == -50).
Proof.
  split; [vm_compute; reflexivity|]. split; [vm_compute; reflexivity|].
  exists (-10 # 2), (-200 # 4), (-200 # 4).
  split; [vm_compute; reflexivity|]. repeat split.
Qed.

(** C5, as stated, fails: a negative index down to [-N] is accepted by the
    array of mesh currents and yields a numeric entry.  With one mesh of
    current [2] and an own resistor of [5] ohm registered for mesh [-1], the
    entry is [(5, 2, 20)]. *)
Lemma indice_negativo_no_es_error :
  calcular_potencia [("R1_p1", mk_info 5 (Malla (-1)))] [2]
  = [("R1_p1", Medido 5 (Qabs 2) (2 ^ 2 * 5))]
  /\ ~ (forall (reg : dict info) (I : list Q) (nombre : string) (inf : info),
          NoDup (claves reg) ->
          (nombre, inf) ∈ reg ->
          fuera_de_rango (length I) (topo inf) ->
          exists m : string,
            dict_get (calcular_potencia reg I) nombre
            = Some (Fallido (valor inf) m)).
Proof.
  split; [reflexivity|]. intros H.
  destruct (H [("R1_p1", mk_info 5 (Malla (-1)))] [2] "R1_p1"
              (mk_info 5 (Malla (-1)))) as [m Hm].
  - vm_compute. repeat constructor. intros Hin. inversion Hin.
  - apply list_elem_of_here.
  - vm_compute. intros [Hle _]. by apply Hle.
  - vm_compute in Hm. discriminate.
Qed.

(** C5, amended: a resistor with an index at least [N] or less than [-N]
    gets the error marker, whose message is the diagnostic of the rejected
    index. *)
Theorem calcular_potencia_indice_rechazado
    (reg : dict info) (I : list Q) (nombre : string) (inf : info) :
  NoDup (claves reg) ->
  (nombre, inf) ∈ reg ->
  rechazada (length I) (topo inf) ->
  exists k : Z,
    dict_get (calcular_potencia reg I) nombre
    = Some (Fallido (valor inf)
              ("Error: " +:+ str_excepcion (IndexError k 0 (length I)))).
Proof.
  intros Hnd Hin Hr.
  destruct (resolver_rechazada I inf Hr) as [k Hk].
  exists k. by rewrite (calcular_potencia_get I reg nombre inf Hnd Hin), Hk.
Qed.

Lemma calcular_potencia_indice_rechazado_witness :
  exists k : Z,
    dict_get (calcular_potencia [("R_c1-6", mk_info 1 (Mallas 0 5))] [2; 3; 4])
      "R_c1-6"
    = Some (Fallido 1 ("Error: " +:+ str_excepcion (IndexError k 0 3))).
Proof.
  apply (calcular_potencia_indice_rechazado
           [("R_c1-6", mk_info 1 (Mallas 0 5))] [2; 3; 4] "R_c1-6"
           (mk_info 1 (Mallas 0 5))).
  - vm_compute. repeat constructor. intros Hin. inversion Hin.
  - apply list_elem_of_here.
  - right. right. vm_compute. discriminate.
Defined.

(** C6: when the resolution of one resistor fails, its entry alone is the
    error marker: the output has an entry for every registered resistor, in
    the order of the registry, and every resistor with indices in range has
    its numeric result. *)
Theorem calcular_potencia_fallo_parcial
    (reg : dict info) (I : list Q) (malo : string) (inf_malo : info) :
  NoDup (claves reg) ->
  (malo, inf_malo) ∈ reg ->
  rechazada (length I) (topo inf_malo) ->
  (exists m : string,
     dict_get (calcular_potencia reg I) malo
     = Some (Fallido (valor inf_malo) m))
  /\ claves (calcular_potencia reg I) = claves reg
  /\ (forall (nombre : string) (inf : info),
        (nombre, inf) ∈ reg ->
        en_rango (length I) (topo inf) ->
        dict_get (calcular_potencia reg I) nombre
        = Some (Medido (valor inf) (Qabs (corriente_bruta (topo inf) I))
                  (corriente_bruta (topo inf) I ^ 2 * valor inf))).
Proof.
  intros Hnd Hmalo Hr. split; [|split].
  - destruct (resolver_rechazada I inf_malo Hr) as [k Hk].
    eexists. by rewrite (calcular_potencia_get I reg malo inf_malo Hnd Hmalo), Hk.
  - by apply calcular_potencia_claves.
  - intros nombre inf Hin Hen.
    by rewrite (calcular_potencia_get I reg nombre inf Hnd Hin),
      resolver_en_rango.
Qed.

(** Scenario 3 of the specification: three meshes, a shared resistor that
    names mesh index [5]. *)
Lemma calcular_potencia_fallo_parcial_witness :
  (exists m : string,
     dict_get
       (calcular_potencia
          [("R1_p1", mk_info 2 (Malla 0)); ("R_c1-6", mk_info 1 (Mallas 0 5));
           ("R3_p1", mk_info 4 (Malla 2))] [1; 2; 3]) "R_c1-6"
     = Some (Fallido 1 m))
  /\ dict_get
       (calcular_potencia
          [("R1_p1", mk_info 2 (Malla 0)); ("R_c1-6", mk_info 1 (Mallas 0 5));
           ("R3_p1", mk_info 4 (Malla 2))] [1; 2; 3]) "R3_p1"
     = Some (Medido 4 (Qabs 3) (3 ^ 2 * 4)).
Proof.
  destruct (calcular_potencia_fallo_parcial
              [("R1_p1", mk_info 2 (Malla 0));
               ("R_c1-6", mk_info 1 (Mallas 0 5));
               ("R3_p1", mk_info 4 (Malla 2))] [1; 2; 3]
              "R_c1-6" (mk_info 1 (Mallas 0 5)))
    as (Hmalo & _ & Hotros).
  - vm_compute. repeat constructor;
      rewrite ?elem_of_cons, ?elem_of_nil; intros H; intuition discriminate.
  - apply list_elem_of_further, list_elem_of_here.
  - right. right. vm_compute. discriminate.
  - split; [exact Hmalo|].
    apply (Hotros "R3_p1" (mk_info 4 (Malla 2))).
    + do 2 apply list_elem_of_further. apply list_elem_of_here.
    + vm_compute. intuition discriminate.
Defined.


(** The rows and the total of [main] are [tabla_y_total] of the resolver's
    output. *)
Lemma resolver_e_informar_tabla_y_total
    (linalg_solve : list (list Q) -> list Q -> res (list Q))
    (N : nat) (st : estado) :
  resolver_e_informar linalg_solve N st
  = match
      (let! corrientes_malla := linalg_solve (matriz_R st) (vector_V st) in
       let! tabla_I :=
         mapM (fun i => np_getitem corrientes_malla (Z.of_nat i)) (range 0 N) in
       let! tt := tabla_y_total
                    (calcular_potencia (resistencias st) corrientes_malla) in
       Ok (Informe tabla_I (fst tt) (snd tt)))%res
    with
    | Ok s => s
    | Raise LinAlgError => SistemaIndeterminado
    | Raise e => ErrorInesperado e
    end.
Proof.
  unfold resolver_e_informar, tabla_y_total.
  destruct (linalg_solve _ _) as [I|e]; cbn [res_bind]; [|done].
  destruct (mapM _ (range 0 N)) as [tabla_I|e]; cbn [res_bind]; [|done].
  by destruct (mapM fila_tabla_R _) as [tabla_R|e].
Qed.




(** C10: a shared resistor registered as [(i, j)] and one registered as
    [(j, i)], with in-range indices and the same resistance, get the same
    reported current, [|I_i - I_j|], and the same reported power (the same
    rational, written the same way).  The indices need not be distinct. *)
Theorem calcular_potencia_indices_intercambiados
    (reg : dict info) (I : list Q) (k1 k2 : string) (r : Q) (i j : Z) :
  NoDup (claves reg) ->
  (k1, mk_info r (Mallas i j)) ∈ reg ->
  (k2, mk_info r (Mallas j i)) ∈ reg ->
  indice_valido (length I) i ->
  indice_valido (length I) j ->
  exists c1 p1 c2 p2 : Q,
    dict_get (calcular_potencia reg I) k1 = Some (Medido r c1 p1)
    /\ dict_get (calcular_potencia reg I) k2 = Some (Medido r c2 p2)
    /\ c1 = Qabs (corriente_malla I i - corriente_malla I j)
    /\ c1 = c2
    /\ p1 = p2.
Proof.
  intros Hnd H1 H2 Hi Hj.
  rewrite (calcular_potencia_get I reg k1 _ Hnd H1).
  rewrite (calcular_potencia_get I reg k2 _ Hnd H2).
  rewrite !resolver_en_rango by (simpl; auto).
  cbn [topo valor corriente_bruta].
  do 4 eexists. repeat split.
  - apply Qabs_Qminus.
  - apply potencia_intercambio.
Qed.

Lemma calcular_potencia_indices_intercambiados_witness :
  exists c1 p1 c2 p2 : Q,
    dict_get
      (calcular_potencia
         [("a", mk_info 2 (Mallas 0 1)); ("b", mk_info 2 (Mallas 1 0))]
         [5; 1]) "a" = Some (Medido 2 c1 p1)
    /\ dict_get
      (calcular_potencia
         [("a", mk_info 2 (Mallas 0 1)); ("b", mk_info 2 (Mallas 1 0))]
         [5; 1]) "b" = Some (Medido 2 c2 p2)
    /\ c1 = Qabs (corriente_malla [5; 1] 0 - corriente_malla [5; 1] 1)
    /\ c1 = c2
    /\ p1 = p2.
Proof.
  apply (calcular_potencia_indices_intercambiados
           [("a", mk_info 2 (Mallas 0 1)); ("b", mk_info 2 (Mallas 1 0))]
           [5; 1] "a" "b" 2 0 1).
  - vm_compute. repeat constructor;
      rewrite ?elem_of_cons, ?elem_of_nil; intros H; intuition discriminate.
  - apply list_elem_of_here.
  - apply list_elem_of_further, list_elem_of_here.
  - vm_compute. intuition discriminate.
  - vm_compute. intuition discriminate.
Defined.

(** ** Reasoning about [prog] *)

Lemma bind_Ok {A B} (m : prog A) (k : A -> prog B) st b st' :
  bind m k st = Ok (b, st') ->
  exists a st1, m st = Ok (a, st1) /\ k a st1 = Ok (b, st').
Proof.
  unfold bind. destruct (m st) as [[a st1]|e]; [|discriminate].
  intros H. by exists a, st1.
Qed.

Lemma lift_Ok {A} (r : res A) st a st' :
  lift r st = Ok (a, st') -> r = Ok a /\ st' = st.
Proof. unfold lift. destruct r; intros H; by simplify_eq. Qed.

Lemma input_Ok st l st' :
  input st = Ok (l, st') ->
  exists ls, entrada st = l :: ls
    /\ st' = mk_estado ls (matriz_R st) (vector_V st) (resistencias st)
               (suma_r_propias st).
Proof.
  unfold input. destruct (entrada st) as [|l0 ls]; [discriminate|].
  intros H. exists ls. by simplify_eq.
Qed.

Lemma asignar_vector_V_Ok i v st u st' :
  asignar_vector_V i v st = Ok (u, st') ->
  st' = mk_estado (entrada st) (matriz_R st) (<[i := v]> (vector_V st))
          (resistencias st) (suma_r_propias st).
Proof. unfold asignar_vector_V. case_decide; intros Hrun; by simplify_eq. Qed.

Lemma asignar_matriz_R_Ok i j v st u st' :
  asignar_matriz_R i j v st = Ok (u, st') ->
  exists M, mset (matriz_R st) i j v = Some M
    /\ st' = mk_estado (entrada st) M (vector_V st) (resistencias st)
               (suma_r_propias st).
Proof.
  unfold asignar_matriz_R. destruct (mset _ _ _ _) as [M|]; [|discriminate].
  intros H. exists M. by simplify_eq.
Qed.

Lemma sumar_matriz_R_Ok i j v st u st' :
  sumar_matriz_R i j v st = Ok (u, st') ->
  exists x M, mget (matriz_R st) i j = Some x
    /\ mset (matriz_R st) i j (x + v) = Some M
    /\ st' = mk_estado (entrada st) M (vector_V st) (resistencias st)
               (suma_r_propias st).
Proof.
  unfold sumar_matriz_R. destruct (mget _ _ _) as [x|]; [|discriminate].
  intros H. apply asignar_matriz_R_Ok in H as (M & HM & ->). by exists x, M.
Qed.

(** Inversion of a successful run of a sequence of statements. *)
Ltac inv_prog H :=
  repeat
    match type of H with
    | bind _ _ _ = Ok _ =>
        let a := fresh "a" in
        let st := fresh "st" in
        let H1 := fresh "H" in
        let ls := fresh "ls" in
        apply bind_Ok in H as (a & st & H1 & H);
        first
          [ apply lift_Ok in H1 as [H1 ->]
          | apply input_Ok in H1 as (ls & H1 & ->)
          | apply asignar_vector_V_Ok in H1 as ->
          | unfold asignar_suma_r_propias in H1; injection H1 as <- <-
          | unfold leer_suma_r_propias in H1; injection H1 as <- <-
          | unfold registrar in H1; injection H1 as <- <-
          | idtac ];
        cbn [entrada matriz_R vector_V resistencias suma_r_propias] in *
    end.

Lemma for_Ok_inv {X} (Inv : estado -> Prop) (xs : list X)
    (cuerpo : X -> prog unit) :
  (forall x st st',
      x ∈ xs -> Inv st -> cuerpo x st = Ok (tt, st') -> Inv st') ->
  forall st st', Inv st -> for_ xs cuerpo st = Ok (tt, st') -> Inv st'.
Proof.
  induction xs as [|x xs IH]; intros Hpaso st st' Hst Hrun; simpl in Hrun.
  - unfold ret in Hrun. by simplify_eq.
  - apply bind_Ok in Hrun as ([] & st1 & H1 & Hrun).
    apply (IH (fun y s s' Hy => Hpaso y s s' (list_elem_of_further _ _ _ Hy))
              st1 st'); [|done].
    apply (Hpaso x st st1); [apply list_elem_of_here|done..].
Qed.

(** ** Cells of the matrix *)

Lemma mget_mset M a b v M' i j :
  mset M a b v = Some M' ->
  mget M' i j = if decide (i = a /\ j = b) then Some v else mget M i j.
Proof.
  unfold mset, mget. destruct (M !! a) as [fila|] eqn:Hfila; [|discriminate].
  case_decide as Hb; [|discriminate]. intros [= <-].
  assert (a < length M)%nat as Ha by (by eapply lookup_lt_Some).
  destruct (decide (i = a)) as [->|Hia].
  - rewrite list_lookup_insert_eq by done.
    destruct (decide (j = b)) as [->|Hjb].
    + rewrite list_lookup_insert_eq by done. by rewrite decide_True.
    + rewrite list_lookup_insert_ne by done. rewrite Hfila.
      rewrite decide_False; [done|]. intros [_ ?]. done.
  - rewrite list_lookup_insert_ne by done.
    rewrite decide_False; [done|]. intros [? _]. done.
Qed.

Lemma simetrica_mset_diagonal M a v M' :
  simetrica M -> mset M a a v = Some M' -> simetrica M'.
Proof.
  intros Hsim Hset i j.
  rewrite !(mget_mset _ _ _ _ _ _ _ Hset), (Hsim i j).
  repeat case_decide; try done; lia.
Qed.

Lemma simetrica_mset_par M a b v M1 M2 :
  simetrica M -> mset M a b v = Some M1 -> mset M1 b a v = Some M2 ->
  simetrica M2.
Proof.
  intros Hsim H1 H2 i j.
  rewrite !(mget_mset _ _ _ _ _ _ _ H2), !(mget_mset _ _ _ _ _ _ _ H1),
    (Hsim i j).
  repeat case_decide; try done; lia.
Qed.

Lemma mget_zeros (N i j : nat) :
  mget (replicate N (replicate N 0)) i j
  = if decide (i < N /\ j < N)%nat then Some 0 else None.
Proof.
  unfold mget. destruct (decide (i < N)%nat) as [Hi|Hi].
  - rewrite lookup_replicate_2 by done.
    destruct (decide (j < N)%nat) as [Hj|Hj].
    + rewrite lookup_replicate_2 by done. by rewrite decide_True.
    + rewrite decide_False by lia. apply lookup_replicate_None. lia.
  - rewrite decide_False by lia.
    assert (replicate N (replicate N 0) !! i = None) as ->; [|done].
    apply lookup_replicate_None. lia.
Qed.

Lemma simetrica_zeros (N : nat) : simetrica (replicate N (replicate N 0)).
Proof.
  intros i j. rewrite !mget_zeros. repeat case_decide; try done; lia.
Qed.

(** ** The builder keeps the matrix symmetric *)

Lemma leer_resistencia_propia_matriz i j st st' :
  leer_resistencia_propia i j st = Ok (tt, st') -> matriz_R st' = matriz_R st.
Proof.
  unfold leer_resistencia_propia. intros H. inv_prog H.
  unfold registrar in H. by simplify_eq.
Qed.

Lemma configurar_malla_simetrica i st st' :
  simetrica (matriz_R st) -> configurar_malla i st = Ok (tt, st') ->
  simetrica (matriz_R st').
Proof.
  unfold configurar_malla. intros Hsim H. inv_prog H.
  apply asignar_matriz_R_Ok in H as (M & HM & ->). cbn [matriz_R] in *.
  match goal with
  | Hfor : for_ _ _ _ = Ok (?u, ?s0) |- _ =>
      assert (matriz_R s0 = matriz_R st) as HR;
        [destruct u;
         apply (for_Ok_inv (fun s => matriz_R s = matriz_R st)) in Hfor;
         [done| |done]|]
  end.
  - intros y s s' _ Hs Hy. rewrite <- Hs.
    by eapply leer_resistencia_propia_matriz.
  - rewrite HR in HM. by eapply simetrica_mset_diagonal.
Qed.

Lemma configurar_compartida_simetrica i j st st' :
  simetrica (matriz_R st) -> configurar_compartida i j st = Ok (tt, st') ->
  simetrica (matriz_R st').
Proof.
  unfold configurar_compartida. intros Hsim H. inv_prog H.
  destruct (Qlt_le_dec 0 a0) as [Hpos|Hneg].
  - inv_prog H.
    match goal with
    | H1 : sumar_matriz_R i i _ _ = Ok _,
      H2 : sumar_matriz_R j j _ _ = Ok _,
      H3 : asignar_matriz_R i j _ _ = Ok _,
      H4 : asignar_matriz_R j i _ _ = Ok _ |- _ =>
        apply sumar_matriz_R_Ok in H1 as (x1 & M1 & _ & HM1 & ->);
        apply sumar_matriz_R_Ok in H2 as (x2 & M2 & _ & HM2 & ->);
        apply asignar_matriz_R_Ok in H3 as (M3 & HM3 & ->);
        apply asignar_matriz_R_Ok in H4 as (M4 & HM4 & ->)
    end.
    unfold registrar in H. simplify_eq. cbn [matriz_R] in *.
    eapply simetrica_mset_par; [|exact HM3|exact HM4].
    eapply simetrica_mset_diagonal; [|exact HM2].
    eapply simetrica_mset_diagonal; [|exact HM1]. done.
  - unfold ret in H. by simplify_eq.
Qed.

Lemma construir_simetrica N st st' :
  simetrica (matriz_R st) -> construir N st = Ok (tt, st') ->
  simetrica (matriz_R st').
Proof.
  unfold construir. intros Hsim H. inv_prog H.
  match goal with
  | H1 : for_ _ configurar_malla _ = Ok _ |- _ =>
      destruct a;
      apply (for_Ok_inv (fun s => simetrica (matriz_R s))) in H1; [|  |done]
  end.
  - apply (for_Ok_inv (fun s => simetrica (matriz_R s))) in H; [done| |done].
    intros i s s' _ Hs Hi.
    apply (for_Ok_inv (fun s => simetrica (matriz_R s))) in Hi; [done| |done].
    intros j t t' _. apply configurar_compartida_simetrica.
  - intros i s s' _. apply configurar_malla_simetrica.
Qed.

(** C2: the matrix produced by the builder is symmetric, and symmetry is
    kept by each contribution: reading an own resistor, closing a mesh
    (which writes its diagonal cell), and adding a shared resistor. *)
Theorem matriz_R_simetrica :
  (forall (N : nat) (lineas : list linea) (st : estado),
      construir N (estado_inicial N lineas) = Ok (tt, st) ->
      simetrica (matriz_R st))
  /\ (forall (i j : nat) (st st' : estado),
        simetrica (matriz_R st) ->
        leer_resistencia_propia i j st = Ok (tt, st') ->
        simetrica (matriz_R st'))
  /\ (forall (i : nat) (st st' : estado),
        simetrica (matriz_R st) ->
        configurar_malla i st = Ok (tt, st') ->
        simetrica (matriz_R st'))
  /\ (forall (i j : nat) (st st' : estado),
        simetrica (matriz_R st) ->
        configurar_compartida i j st = Ok (tt, st') ->
        simetrica (matriz_R st')).
Proof.
  repeat split.
  - intros N lineas st. apply construir_simetrica, simetrica_zeros.
  - intros i j st st' Hsim Hrun.
    by rewrite (leer_resistencia_propia_matriz _ _ _ _ Hrun).
  - apply configurar_malla_simetrica.
  - apply configurar_compartida_simetrica.
Qed.

Lemma matriz_R_simetrica_witness :
  simetrica [[3; - (1)]; [- (1); 4]].
Proof.
  apply (proj1 matriz_R_simetrica 2%nat
           [Entero 10; Entero 1; Entero 2; Entero 0; Entero 1; Entero 3;
            Entero 1]
           (mk_estado [] [[3; - (1)]; [- (1); 4]] [10; 0]
              [("R1_p1", mk_info 2 (Malla 0)); ("R2_p1", mk_info 3 (Malla 1));
               ("R_c1-2", mk_info 1 (Mallas 0 1))] 3)).
  vm_compute. reflexivity.
Defined.

(** C8: a shared-resistor value of exactly [0] leaves the matrix (hence the
    four cells [(i,i)], [(j,j)], [(i,j)], [(j,i)]), the source vector and the
    registry as they were; the step ends normally, having read its line. *)
Theorem compartida_cero_sin_efecto
    (i j : nat) (st : estado) (l : linea) (resto : list linea) (r_comp : Q) :
  entrada st = l :: resto ->
  py_float l = Ok r_comp ->
  r_comp == 0 ->
  configurar_compartida i j st
  = Ok (tt, mk_estado resto (matriz_R st) (vector_V st) (resistencias st)
              (suma_r_propias st)).
Proof.
  intros Hent Hl Hr. unfold configurar_compartida, bind, input, lift.
  rewrite Hent, Hl.
  destruct (Qlt_le_dec 0 r_comp) as [Hpos|_]; [|done].
  rewrite Hr in Hpos. by apply Qlt_irrefl in Hpos.
Qed.

Lemma compartida_cero_sin_efecto_witness :
  configurar_compartida 0 1
    (mk_estado [Decimal 0] [[2; 0]; [0; 3]] [10; 0]
       [("R1_p1", mk_info 2 (Malla 0)); ("R2_p1", mk_info 3 (Malla 1))] 3)
  = Ok (tt, mk_estado [] [[2; 0]; [0; 3]] [10; 0]
              [("R1_p1", mk_info 2 (Malla 0)); ("R2_p1", mk_info 3 (Malla 1))]
              3).
Proof.
  apply (compartida_cero_sin_efecto 0 1
           (mk_estado [Decimal 0] [[2; 0]; [0; 3]] [10; 0]
              [("R1_p1", mk_info 2 (Malla 0)); ("R2_p1", mk_info 3 (Malla 1))]
              3)
           (Decimal 0) [] 0).
  - reflexivity.
  - reflexivity.
  - reflexivity.
Defined.

(** ** The names of the registry *)

Lemma pretty_N_char_sin_separador (x : N) :
  pretty_N_char x <> "_"%char /\ pretty_N_char x <> "-"%char.
Proof. unfold pretty_N_char. by repeat case_match. Qed.

Lemma pretty_N_go_sin_separador (x : N) (s : string) :
  sin_separador s -> sin_separador (pretty_N_go x s).
Proof.
  revert s. induction (N.lt_wf_0 x) as [x _ IH]; intros s Hs.
  destruct (decide (x = 0)%N) as [->|Hx].
  - by rewrite pretty_N_go_0.
  - rewrite pretty_N_go_step by lia.
    apply IH; [apply N.div_lt; lia|].
    destruct (pretty_N_char_sin_separador (x `mod` 10)%N). by repeat split.
Qed.

Lemma pretty_nat_sin_separador (n : nat) : sin_separador (pretty n).
Proof.
  unfold pretty, pretty_nat, pretty, pretty_N.
  case_decide; [by repeat split|]. by apply pretty_N_go_sin_separador.
Qed.

(** Two names that agree split at the same separator. *)
Lemma separador_inj (d1 d2 : string) (c : ascii) (t1 t2 : string) :
  sin_separador d1 -> sin_separador d2 ->
  c = "_"%char \/ c = "-"%char ->
  d1 +:+ String c t1 = d2 +:+ String c t2 -> d1 = d2 /\ t1 = t2.
Proof.
  intros H1 H2 Hc. revert d2 H2.
  induction d1 as [|x d1 IH]; intros [|y d2] H2 Heq; simpl in *.
  - by simplify_eq.
  - simplify_eq. destruct H2 as (? & ? & _). by destruct Hc.
  - simplify_eq. destruct H1 as (? & ? & _). by destruct Hc.
  - injection Heq as -> Heq.
    destruct H1 as (_ & _ & H1), H2 as (_ & _ & H2).
    destruct (IH H1 d2 H2 Heq) as [-> ->]. done.
Qed.

Lemma nombre_propia_inj (a b i j : nat) :
  nombre_propia a b = nombre_propia i j -> a = i /\ b = j.
Proof.
  unfold nombre_propia. intros Heq. simpl in Heq. injection Heq as Heq.
  apply separador_inj in Heq as [Ha Hb];
    [|apply pretty_nat_sin_separador..|by left].
  injection Hb as Hb.
  apply (inj pretty) in Ha. apply (inj pretty) in Hb. lia.
Qed.

Lemma nombre_compartida_inj (a b i j : nat) :
  nombre_compartida a b = nombre_compartida i j -> a = i /\ b = j.
Proof.
  unfold nombre_compartida. intros Heq. simpl in Heq. injection Heq as Heq.
  apply separador_inj in Heq as [Ha Hb];
    [|apply pretty_nat_sin_separador..|by right].
  apply (inj pretty) in Ha. apply (inj pretty) in Hb. lia.
Qed.

Lemma nombre_propia_no_compartida (a b i j : nat) :
  nombre_propia a b <> nombre_compartida i j.
Proof.
  unfold nombre_propia, nombre_compartida. intros Heq. simpl in Heq.
  injection Heq as Heq.
  pose proof (pretty_nat_sin_separador (a + 1)) as Hs.
  destruct (pretty (a + 1)%nat) as [|c s]; simpl in *.
  - discriminate.
  - injection Heq as -> _. by destruct Hs as [? _].
Qed.

(** ** Sums over the registry *)

Lemma suma_lista_app (l1 l2 : list Q) :
  suma_lista (l1 ++ l2) == suma_lista l1 + suma_lista l2.
Proof.
  induction l1 as [|x l1 IH]; simpl; [ring|]. rewrite IH. ring.
Qed.

Lemma suma_valores_nueva (sel : info -> bool) (reg : dict info)
    (k : string) (inf : info) :
  k ∉ claves reg ->
  suma_valores sel (dict_set reg k inf)
  == suma_valores sel reg + (if sel inf then valor inf else 0).
Proof.
  intros Hk. rewrite dict_set_nueva by done.
  unfold suma_valores, valores.
  rewrite map_app, List.filter_app, map_app, suma_lista_app. simpl.
  destruct (sel inf); simpl; ring.
Qed.

Lemma suma_valores_ninguna (sel : info -> bool) (reg : dict info) :
  Forall (fun par => sel (snd par) = false) reg -> suma_valores sel reg = 0.
Proof.
  unfold suma_valores, valores.
  induction 1 as [|[k inf] reg Hsel _ IH]; simpl in *; [done|].
  by rewrite Hsel.
Qed.

(** ** Loops over a range *)

Lemma for_range_inv (Inv : nat -> estado -> Prop) (cuerpo : nat -> prog unit)
    (a b : nat) :
  (forall x st st',
      (a <= x < b)%nat -> Inv x st -> cuerpo x st = Ok (tt, st') ->
      Inv (S x) st') ->
  forall st st',
    (a <= b)%nat -> Inv a st -> for_ (range a b) cuerpo st = Ok (tt, st') ->
    Inv b st'.
Proof.
  unfold range. remember (b - a)%nat as n eqn:Hn.
  revert a Hn. induction n as [|n IH]; intros a Hn Hpaso st st' Hab Hinv Hrun.
  - simpl in Hrun. unfold ret in Hrun. simplify_eq.
    by replace b with a by lia.
  - simpl in Hrun. apply bind_Ok in Hrun as ([] & st1 & H1 & Hrun).
    apply (IH (S a)) in Hrun; [done|lia| |lia|].
    + intros x s s' Hx. apply Hpaso. lia.
    + apply (Hpaso a st st1); [lia|done..].
Qed.

(** ** Fresh names *)

Lemma registrada_impl (P P' C C' : nat -> nat -> Prop) (par : string * info) :
  (forall a b, P a b -> P' a b) ->
  (forall a b, (a < b)%nat -> C a b -> C' a b) ->
  registrada P C par -> registrada P' C' par.
Proof.
  intros HP HC [(a & b & ? & ? & ?)|(a & b & ? & ? & ? & ?)];
    [left|right]; exists a, b; auto.
Qed.

Lemma nombre_propia_nueva (P C : nat -> nat -> Prop) (reg : dict info)
    (i j : nat) :
  Forall (registrada P C) reg -> ~ P i j -> nombre_propia i j ∉ claves reg.
Proof.
  intros Hreg HP Hin. unfold claves in Hin.
  apply list_elem_of_fmap in Hin as ([k inf] & Hk & Hin). simpl in Hk.
  rewrite Forall_forall in Hreg. specialize (Hreg _ Hin).
  destruct Hreg as [(a & b & Hn & _ & Hab)|(a & b & Hn & _)];
    simpl in Hn; rewrite Hn in Hk.
  - apply nombre_propia_inj in Hk as [-> ->]. done.
  - by apply nombre_propia_no_compartida in Hk.
Qed.

Lemma nombre_compartida_nueva (P C : nat -> nat -> Prop) (reg : dict info)
    (i j : nat) :
  Forall (registrada P C) reg -> ~ C i j -> nombre_compartida i j ∉ claves reg.
Proof.
  intros Hreg HC Hin. unfold claves in Hin.
  apply list_elem_of_fmap in Hin as ([k inf] & Hk & Hin). simpl in Hk.
  rewrite Forall_forall in Hreg. specialize (Hreg _ Hin).
  destruct Hreg as [(a & b & Hn & _)|(a & b & Hn & _ & _ & Hab)];
    simpl in Hn; rewrite Hn in Hk.
  - symmetry in Hk. by apply nombre_propia_no_compartida in Hk.
  - apply nombre_compartida_inj in Hk as [-> ->]. done.
Qed.

Lemma Forall_dict_set_nueva {V} (P : string * V -> Prop) (d : dict V)
    (k : string) (v : V) :
  k ∉ claves d -> Forall P d -> P (k, v) -> Forall P (dict_set d k v).
Proof.
  intros Hk Hd Hv. rewrite dict_set_nueva by done.
  apply Forall_app. split; [done|]. by constructor.
Qed.

(** ** First loop: sources and own resistors *)

Lemma es_propia_de_Malla (a i : nat) (r : Q) :
  es_propia_de a (mk_info r (Malla (Z.of_nat i))) = bool_decide (i = a).
Proof.
  unfold es_propia_de. simpl.
  destruct (Z.eqb_spec (Z.of_nat i) (Z.of_nat a));
    [rewrite bool_decide_eq_true_2|rewrite bool_decide_eq_false_2]; lia.
Qed.

(** No own resistor of mesh [i] is registered before the mesh is read. *)
Lemma suma_propias_ninguna (P C : nat -> nat -> Prop) (reg : dict info)
    (i : nat) :
  Forall (registrada P C) reg -> (forall b, ~ P i b) ->
  suma_propias reg i = 0.
Proof.
  intros Hreg HP. apply suma_valores_ninguna.
  eapply Forall_impl; [exact Hreg|].
  intros [k inf] [(a & b & _ & Ht & Hab)|(a & b & _ & Ht & _)];
    simpl in *; unfold es_propia_de; rewrite Ht; [|done].
  destruct (Z.eqb_spec (Z.of_nat a) (Z.of_nat i)) as [Heq|]; [|done].
  apply Nat2Z.inj in Heq as ->. by destruct (HP b).
Qed.

(** A registry without shared resistors. *)
Lemma sin_compartidas (P : nat -> nat -> Prop) (reg : dict info)
    (sel : info -> bool) :
  Forall (registrada P (fun _ _ => False)) reg ->
  (forall inf, sel inf = true -> exists a b, topo inf = Mallas a b) ->
  suma_valores sel reg = 0.
Proof.
  intros Hreg Hsel. apply suma_valores_ninguna.
  eapply Forall_impl; [exact Hreg|].
  intros [k inf] [(a & b & _ & Ht & _)|(a & b & _ & _ & _ & [])]; simpl in *.
  destruct (sel inf) eqn:Hs; [|done].
  destruct (Hsel inf Hs) as (? & ? & Ht'). congruence.
Qed.

Lemma leer_resistencia_propia_inv i M0 reg0 j st st' :
  inv_propias i M0 reg0 j st ->
  leer_resistencia_propia i j st = Ok (tt, st') ->
  inv_propias i M0 reg0 (S j) st'.
Proof.
  intros (HM & Hsuma & Hreg & Hotras) Hrun.
  unfold leer_resistencia_propia in Hrun. inv_prog Hrun.
  unfold registrar in Hrun. injection Hrun as <-.
  assert (nombre_propia i j ∉ claves (resistencias st)) as Hnueva.
  { eapply nombre_propia_nueva; [exact Hreg|]. unfold antes. lia. }
  unfold inv_propias. cbn [matriz_R resistencias suma_r_propias].
  split; [done|]. split; [|split].
  - unfold suma_propias in *. rewrite suma_valores_nueva by done.
    rewrite es_propia_de_Malla, bool_decide_eq_true_2 by done.
    cbn [valor]. by rewrite Hsuma.
  - apply Forall_dict_set_nueva; [done| |].
    + eapply Forall_impl; [exact Hreg|]. intros par.
      apply registrada_impl; [|done]. unfold antes. lia.
    + left. exists i, j. repeat split. unfold antes. lia.
  - intros m Hm. rewrite <- (Hotras m Hm).
    unfold suma_propias. rewrite suma_valores_nueva by done.
    rewrite es_propia_de_Malla, bool_decide_eq_false_2 by done. ring.
Qed.

Lemma configurar_malla_inv N k st st' :
  (k < N)%nat ->
  inv_mallas N k st ->
  configurar_malla k st = Ok (tt, st') ->
  inv_mallas N (S k) st'.
Proof.
  intros Hk [Hcel Hreg] Hrun. unfold configurar_malla in Hrun.
  inv_prog Hrun.
  apply asignar_matriz_R_Ok in Hrun as (M & HM & ->).
  match goal with
  | Hfor : for_ _ _ _ = Ok (?u, ?s1) |- _ =>
      destruct u;
      apply (for_range_inv
               (inv_propias k (matriz_R st) (resistencias st))) in Hfor;
        [destruct Hfor as (HM1 & Hsuma & Hreg1 & Hotras)| |lia|]
  end.
  - rewrite HM1 in HM. split; cbn [matriz_R resistencias].
    + intros i j Hi Hj. rewrite (mget_mset _ _ _ _ _ _ _ HM).
      destruct (decide (i = k /\ j = k)) as [[-> ->]|Hne].
      * eexists. split; [done|]. by rewrite decide_True by lia.
      * destruct (Hcel i j Hi Hj) as (q & Hq & Hqv). exists q.
        split; [done|]. rewrite Hqv.
        destruct (decide (i = j /\ i < k)%nat) as [[-> ?]|?].
        -- rewrite decide_True by lia. symmetry. apply Hotras. lia.
        -- rewrite decide_False by lia. reflexivity.
    + eapply Forall_impl; [exact Hreg1|]. intros par.
      apply registrada_impl; [|done]. unfold antes. lia.
  - intros j s s' _. apply leer_resistencia_propia_inv.
  - unfold inv_propias. cbn [matriz_R resistencias suma_r_propias].
    split; [done|]. split; [|split].
    + rewrite (suma_propias_ninguna _ _ _ k Hreg); [reflexivity|].
      intros _. lia.
    + eapply Forall_impl; [exact Hreg|]. intros par.
      apply registrada_impl; [|done]. unfold antes. lia.
    + reflexivity.
Qed.

Lemma inv_mallas_inicial N lineas : inv_mallas N 0 (estado_inicial N lineas).
Proof.
  split; cbn [estado_inicial matriz_R resistencias]; [|constructor].
  intros i j Hi Hj. exists 0. rewrite mget_zeros, decide_True by done.
  split; [done|]. rewrite decide_False by lia. reflexivity.
Qed.

Lemma mallas_inv N st st' :
  inv_mallas N 0 st ->
  for_ (range 0 N) configurar_malla st = Ok (tt, st') ->
  inv_mallas N N st'.
Proof.
  intros Hinv Hrun.
  apply (for_range_inv (inv_mallas N)) in Hrun; [done| |lia|done].
  intros k s s' Hk. apply configurar_malla_inv. lia.
Qed.

(** ** Second loop: shared resistors *)

Lemma inv_compartidas_impl N (C C' : nat -> nat -> Prop) st :
  (forall a b, (a < b)%nat -> C a b -> C' a b) ->
  inv_compartidas N C st -> inv_compartidas N C' st.
Proof.
  intros HC [Hcel Hreg]. split; [done|].
  eapply Forall_impl; [exact Hreg|]. intros par.
  by apply registrada_impl.
Qed.

(** With only own resistors registered, the cells are as the registry says. *)
Lemma inv_mallas_compartidas N st :
  inv_mallas N N st -> inv_compartidas N (fun a _ => (a < 0)%nat) st.
Proof.
  intros [Hcel Hreg]. split.
  - intros i j Hi Hj. destruct (Hcel i j Hi Hj) as (q & Hq & Hqv).
    exists q. split; [done|]. rewrite Hqv. unfold celda_esperada.
    unfold suma_compartidas_de, suma_compartidas_entre.
    rewrite !(sin_compartidas _ _ _ Hreg).
    + destruct (decide (i = j)) as [->|Hij].
      * rewrite decide_True by lia. ring.
      * rewrite decide_False by lia. ring.
    + intros inf. unfold entre. destruct (topo inf); [done|eauto].
    + intros inf. unfold toca. destruct (topo inf); [done|eauto].
  - eapply Forall_impl; [exact Hreg|]. intros par.
    apply registrada_impl; [done|]. intros a b _ [].
Qed.

(** The pair [(i, j)] has no registered resistor before it is visited. *)
Lemma suma_compartidas_entre_ninguna (P : nat -> nat -> Prop)
    (reg : dict info) (i j : nat) :
  Forall (registrada P (antes i j)) reg -> (i < j)%nat ->
  suma_compartidas_entre reg i j = 0 /\ suma_compartidas_entre reg j i = 0.
Proof.
  intros Hreg Hij.
  split; apply suma_valores_ninguna; (eapply Forall_impl; [exact Hreg|]);
    intros [k inf] [(a & b & _ & Ht & _)|(a & b & _ & Ht & Hab & Hant)];
    simpl in *; unfold entre; rewrite Ht; try done;
    unfold antes in Hant;
    destruct (Z.eqb_spec (Z.of_nat a) (Z.of_nat i)),
             (Z.eqb_spec (Z.of_nat b) (Z.of_nat j)),
             (Z.eqb_spec (Z.of_nat a) (Z.of_nat j)),
             (Z.eqb_spec (Z.of_nat b) (Z.of_nat i)); simpl; try done; lia.
Qed.

(** What a new shared resistor adds to each cell. *)
Lemma celda_esperada_nueva_compartida (reg : dict info) (k : string) (r : Q)
    (i j a b : nat) :
  k ∉ claves reg -> 0 < r -> i <> j ->
  celda_esperada
    (dict_set reg k (mk_info r (Mallas (Z.of_nat i) (Z.of_nat j)))) a b
  == celda_esperada reg a b
     + (if decide (a = b) then
          if decide (a = i \/ a = j) then r else 0
        else
          if decide ((a = i /\ b = j) \/ (a = j /\ b = i)) then - r else 0).
Proof.
  intros Hk Hr Hij.
  unfold celda_esperada, suma_propias, suma_compartidas_de,
    suma_compartidas_entre.
  destruct (decide (a = b)) as [->|Hab].
  - rewrite !suma_valores_nueva by done.
    unfold es_propia_de, toca, positiva. cbn [topo valor].
    destruct (Qlt_le_dec 0 r) as [_|Hle]; [|lra].
    destruct (Z.eqb_spec (Z.of_nat i) (Z.of_nat b)),
             (Z.eqb_spec (Z.of_nat j) (Z.of_nat b));
      case_decide; cbn [andb orb]; try lia; ring.
  - rewrite !suma_valores_nueva by done.
    unfold entre, positiva. cbn [topo valor].
    destruct (Qlt_le_dec 0 r) as [_|Hle]; [|lra].
    destruct (Z.eqb_spec (Z.of_nat i) (Z.of_nat a)),
             (Z.eqb_spec (Z.of_nat j) (Z.of_nat a)),
             (Z.eqb_spec (Z.of_nat i) (Z.of_nat b)),
             (Z.eqb_spec (Z.of_nat j) (Z.of_nat b));
      case_decide; cbn [andb orb]; try lia; ring.
Qed.

Lemma configurar_compartida_inv N i j st st' :
  (i < j)%nat -> (j < N)%nat ->
  inv_compartidas N (antes i j) st ->
  configurar_compartida i j st = Ok (tt, st') ->
  inv_compartidas N (antes i (S j)) st'.
Proof.
  intros Hij HjN Hinv Hrun. unfold configurar_compartida in Hrun.
  inv_prog Hrun.
  destruct (Qlt_le_dec 0 a0) as [Hpos|Hneg].
  - inv_prog Hrun.
    match goal with
    | H1 : sumar_matriz_R i i _ _ = Ok _,
      H2 : sumar_matriz_R j j _ _ = Ok _,
      H3 : asignar_matriz_R i j _ _ = Ok _,
      H4 : asignar_matriz_R j i _ _ = Ok _ |- _ =>
        apply sumar_matriz_R_Ok in H1 as (x1 & M1 & Hx1 & HM1 & ->);
        apply sumar_matriz_R_Ok in H2 as (x2 & M2 & Hx2 & HM2 & ->);
        apply asignar_matriz_R_Ok in H3 as (M3 & HM3 & ->);
        apply asignar_matriz_R_Ok in H4 as (M4 & HM4 & ->)
    end.
    unfold registrar in Hrun. injection Hrun as <-.
    cbn [entrada matriz_R vector_V resistencias suma_r_propias] in *.
    destruct Hinv as [Hcel Hreg].
    assert (nombre_compartida i j ∉ claves (resistencias st)) as Hnueva.
    { eapply nombre_compartida_nueva; [exact Hreg|]. unfold antes. lia. }
    destruct (suma_compartidas_entre_ninguna _ _ _ _ Hreg Hij) as [Hij0 Hji0].
    rewrite (mget_mset _ _ _ _ _ _ _ HM1), decide_False in Hx2 by lia.
    split; cbn [matriz_R resistencias].
    + intros m n Hm Hn.
      rewrite (mget_mset _ _ _ _ _ _ _ HM4), (mget_mset _ _ _ _ _ _ _ HM3),
        (mget_mset _ _ _ _ _ _ _ HM2), (mget_mset _ _ _ _ _ _ _ HM1).
      destruct (Hcel m n Hm Hn) as (q & Hq & Hqv).
      assert (celda_esperada (resistencias st) i j == 0) as Hcij.
      { unfold celda_esperada. rewrite decide_False, Hij0 by lia. ring. }
      assert (celda_esperada (resistencias st) j i == 0) as Hcji.
      { unfold celda_esperada. rewrite decide_False, Hji0 by lia. ring. }
      repeat case_decide; destruct_and?; subst;
        (eexists; split; [done|]);
        rewrite celda_esperada_nueva_compartida by (done || lia);
        repeat case_decide; try lia; simplify_eq;
        rewrite ?Hcij, ?Hcji, <- ?Hqv; try ring.
    + apply Forall_dict_set_nueva; [done| |].
      * eapply Forall_impl; [exact Hreg|]. intros par.
        apply registrada_impl; [done|]. unfold antes. lia.
      * right. exists i, j. repeat split; [done|]. unfold antes. lia.
  - unfold ret in Hrun. injection Hrun as <-.
    apply (inv_compartidas_impl N (antes i j)).
    + intros m n _. unfold antes. lia.
    + split; apply Hinv.
Qed.

Lemma compartidas_de_malla_inv N i st st' :
  (i < N)%nat ->
  inv_compartidas N (fun a _ => (a < i)%nat) st ->
  for_ (range (i + 1) N) (fun j => configurar_compartida i j) st
  = Ok (tt, st') ->
  inv_compartidas N (fun a _ => (a < S i)%nat) st'.
Proof.
  intros Hi Hinv Hrun.
  apply (for_range_inv (fun j => inv_compartidas N (antes i j))) in Hrun.
  - eapply inv_compartidas_impl; [|exact Hrun].
    intros a b _. unfold antes. lia.
  - intros j s s' Hj. apply configurar_compartida_inv; lia.
  - lia.
  - eapply inv_compartidas_impl; [|exact Hinv].
    intros a b _. unfold antes. lia.
Qed.

Lemma construir_inv N lineas st :
  construir N (estado_inicial N lineas) = Ok (tt, st) ->
  inv_compartidas N (fun a _ => (a < N)%nat) st.
Proof.
  unfold construir. intros Hrun. inv_prog Hrun.
  match goal with
  | H1 : for_ _ configurar_malla _ = Ok (?u, _) |- _ =>
      destruct u; apply mallas_inv in H1; [|apply inv_mallas_inicial];
      apply inv_mallas_compartidas in H1
  end.
  apply (for_range_inv
           (fun i => inv_compartidas N (fun a _ => (a < i)%nat))) in Hrun;
    [done| |lia|done].
  intros i s s' Hi. apply compartidas_de_malla_inv. lia.
Qed.

(** ** The matrix produced by the builder *)

(** C1: in the matrix the builder produces, the diagonal cell of mesh [i]
    is the sum of the own resistors of mesh [i] plus the sum of the positive
    shared resistors that touch mesh [i], and the cell [(i, j)], [i <> j], is
    minus the sum of the positive shared resistors between meshes [i] and
    [j]; the sums range over the registry the builder produces. *)
Theorem construir_matriz_R
    (N : nat) (lineas : list linea) (st : estado) (i j : nat) :
  construir N (estado_inicial N lineas) = Ok (tt, st) ->
  (i < N)%nat -> (j < N)%nat ->
  exists x : Q,
    mget (matriz_R st) i j = Some x
    /\ (i = j ->
        x == suma_propias (resistencias st) i
             + suma_compartidas_de (resistencias st) i)
    /\ (i <> j -> x == - suma_compartidas_entre (resistencias st) i j).
Proof.
  intros Hrun Hi Hj.
  destruct (construir_inv N lineas st Hrun) as [Hcel _].
  destruct (Hcel i j Hi Hj) as (x & Hx & Hxv). exists x.
  split; [done|]. unfold celda_esperada in Hxv.
  split; intros Hij; [rewrite decide_True in Hxv by done
                     |rewrite decide_False in Hxv by done]; done.
Qed.

Lemma construir_escenario_2 :
  construir 2 (estado_inicial 2 lineas_escenario_2)
  = Ok (tt, estado_escenario_2).
Proof. vm_compute. reflexivity. Qed.

Lemma construir_matriz_R_witness :
  exists x : Q,
    mget (matriz_R estado_escenario_2) 0 1 = Some x
    /\ (0%nat = 1%nat ->
        x == suma_propias (resistencias estado_escenario_2) 0
             + suma_compartidas_de (resistencias estado_escenario_2) 0)
    /\ (0%nat <> 1%nat ->
        x == - suma_compartidas_entre (resistencias estado_escenario_2) 0 1).
Proof.
  apply (construir_matriz_R 2 lineas_escenario_2 estado_escenario_2 0 1).
  - vm_compute. reflexivity.
  - lia.
  - lia.
Defined.

(** ** Scenario 2, end to end *)

Lemma calcular_potencia_escenario_2 (I1 I2 : Q) :
  calcular_potencia registro_escenario_2 [I1; I2]
  = [("R1_p1", Medido 2 (Qabs I1) (I1 ^ 2 * 2));
     ("R2_p1", Medido 3 (Qabs I2) (I2 ^ 2 * 3));
     ("R_c1-2", Medido 1 (Qabs (I1 - I2)) ((I1 - I2) ^ 2 * 1))].
Proof. reflexivity. Qed.

(** C9: for two meshes with sources [10] and [0], own resistors [2] and
    [3] and a shared resistor [1], the builder produces the matrix
    [[3,-1],[-1,4]] and the vector [10,0]; when the solver returns the
    solution of that system (up to a residual of [10^-6]), the mesh currents
    are [3.636] and [0.909] and the shared resistor has current [2.727] and
    power [7.438], each to three decimals. *)
Theorem escenario_2_extremo_a_extremo
    (linalg_solve : list (list Q) -> list Q -> res (list Q)) (I1 I2 : Q) :
  linalg_solve [[3; - (1)]; [- (1); 4]] [10; 0] = Ok [I1; I2] ->
  Qabs (3 * I1 - I2 - 10) <= 1 # 1000000 ->
  Qabs (- I1 + 4 * I2 - 0) <= 1 # 1000000 ->
  construir 2 (estado_inicial 2 lineas_escenario_2)
  = Ok (tt, mk_estado [] [[3; - (1)]; [- (1); 4]] [10; 0]
              registro_escenario_2 3)
  /\ main linalg_solve (Entero 2 :: lineas_escenario_2)
     = Informe [I1; I2]
         [("R1_p1", (2, Qabs I1, I1 ^ 2 * 2));
          ("R2_p1", (3, Qabs I2, I2 ^ 2 * 3));
          ("R_c1-2", (1, Qabs (I1 - I2), (I1 - I2) ^ 2 * 1))]
         (0 + I1 ^ 2 * 2 + I2 ^ 2 * 3 + (I1 - I2) ^ 2 * 1)
  /\ Qabs (I1 - 3.636) <= 0.0005
  /\ Qabs (I2 - 0.909) <= 0.0005
  /\ Qabs (Qabs (I1 - I2) - 2.727) <= 0.0005
  /\ Qabs ((I1 - I2) ^ 2 * 1 - 7.438) <= 0.0005.
Proof.
  intros Hsolve Hr1 Hr2.
  apply Qabs_Qle_condition in Hr1, Hr2.
  split; [exact construir_escenario_2|]. split.
  - unfold main. cbn [py_int Z.leb Z.compare].
    change (Z.to_nat 2) with 2%nat. rewrite construir_escenario_2.
    unfold resolver_e_informar.
    cbn [matriz_R vector_V resistencias estado_escenario_2].
    rewrite Hsolve. cbn [res_bind].
    rewrite calcular_potencia_escenario_2. reflexivity.
  - assert (Qabs (I1 - I2) == I1 - I2) as Habs by (apply Qabs_pos; lra).
    repeat split; try rewrite Habs; apply Qabs_Qle_condition;
      split; try lra; nra.
Qed.

Lemma escenario_2_extremo_a_extremo_witness :
  main linalg_solve_exacto (Entero 2 :: lineas_escenario_2)
  = Informe [360 # 99; 30 # 33]
      [("R1_p1", (2, Qabs (360 # 99), (360 # 99) ^ 2 * 2));
       ("R2_p1", (3, Qabs (30 # 33), (30 # 33) ^ 2 * 3));
       ("R_c1-2", (1, Qabs ((360 # 99) - (30 # 33)),
                   ((360 # 99) - (30 # 33)) ^ 2 * 1))]
      (0 + (360 # 99) ^ 2 * 2 + (30 # 33) ^ 2 * 3
       + ((360 # 99) - (30 # 33)) ^ 2 * 1)
  /\ Qabs ((360 # 99) - 3.636) <= 0.0005
  /\ Qabs ((30 # 33) - 0.909) <= 0.0005
  /\ Qabs (Qabs ((360 # 99) - (30 # 33)) - 2.727) <= 0.0005
  /\ Qabs (((360 # 99) - (30 # 33)) ^ 2 * 1 - 7.438) <= 0.0005.
Proof.
  apply (escenario_2_extremo_a_extremo linalg_solve_exacto
           (360 # 99) (30 # 33)).
  - vm_compute. reflexivity.
  - vm_compute. discriminate.
  - vm_compute. discriminate.
Defined.

(** ** The registry of a run, and the handlers of [main] *)

(** The names the builder registers are distinct, so the properties of the
    resolver apply to the registry of every run. *)
Lemma construir_claves_NoDup N st st' :
  NoDup (claves (resistencias st)) ->
  construir N st = Ok (tt, st') ->
  NoDup (claves (resistencias st')).
Proof.
  pose (Inv := fun s : estado => NoDup (claves (resistencias s))).
  assert (forall i j s s',
             Inv s -> leer_resistencia_propia i j s = Ok (tt, s') -> Inv s')
    as Hpropia.
  { intros i j s s' Hs Hrun. unfold leer_resistencia_propia in Hrun.
    inv_prog Hrun. unfold registrar in Hrun. injection Hrun as <-.
    by apply NoDup_claves_dict_set. }
  assert (forall i s s',
             Inv s -> configurar_malla i s = Ok (tt, s') -> Inv s')
    as Hmalla.
  { intros i s s' Hs Hrun. unfold configurar_malla in Hrun. inv_prog Hrun.
    apply asignar_matriz_R_Ok in Hrun as (M & _ & ->).
    match goal with
    | Hfor : for_ _ _ _ = Ok (?u, _) |- _ =>
        destruct u; apply (for_Ok_inv Inv) in Hfor; [done| |done]
    end.
    intros j t t' _. apply Hpropia. }
  assert (forall i j s s',
             Inv s -> configurar_compartida i j s = Ok (tt, s') -> Inv s')
    as Hcomp.
  { intros i j s s' Hs Hrun. unfold configurar_compartida in Hrun.
    inv_prog Hrun. destruct (Qlt_le_dec 0 _).
    - inv_prog Hrun.
      repeat match goal with
      | H : sumar_matriz_R _ _ _ _ = Ok _ |- _ =>
          apply sumar_matriz_R_Ok in H as (? & ? & _ & _ & ->)
      | H : asignar_matriz_R _ _ _ _ = Ok _ |- _ =>
          apply asignar_matriz_R_Ok in H as (? & _ & ->)
      end.
      unfold registrar in Hrun. injection Hrun as <-.
      by apply NoDup_claves_dict_set.
    - unfold ret in Hrun. by injection Hrun as <-. }
  intros Hst Hrun. unfold construir in Hrun. inv_prog Hrun.
  match goal with
  | H1 : for_ _ configurar_malla _ = Ok (?u, _) |- _ =>
      destruct u; apply (for_Ok_inv Inv) in H1;
        [|intros i s s' _; apply Hmalla|done]
  end.
  apply (for_Ok_inv Inv) in Hrun; [done| |done].
  intros i s s' _ Hs Hi. apply (for_Ok_inv Inv) in Hi; [done| |done].
  intros j t t' _. apply Hcomp.
Qed.

(** [except np.linalg.LinAlgError]: when the solver rejects the matrix the
    builder produced, the run ends with the "Sistema Indeterminado" message. *)
Lemma main_sistema_indeterminado
    (linalg_solve : list (list Q) -> list Q -> res (list Q))
    (N : Z) (lineas : list linea) (st : estado) :
  (0 < N)%Z ->
  construir (Z.to_nat N) (estado_inicial (Z.to_nat N) lineas) = Ok (tt, st) ->
  linalg_solve (matriz_R st) (vector_V st) = Raise LinAlgError ->
  main linalg_solve (Entero N :: lineas) = SistemaIndeterminado.
Proof.
  intros HN Hrun Hsolve. unfold main. cbn [py_int].
  destruct (Z.leb_spec N 0) as [?|_]; [lia|].
  rewrite Hrun. unfold resolver_e_informar. by rewrite Hsolve.
Qed.

(** A single mesh without resistance, with the exact solver. *)
Example una_malla_sin_resistencia :
  main linalg_solve_exacto [Entero 1; Entero 0; Entero 0]
  = SistemaIndeterminado.
Proof. vm_compute. reflexivity. Qed.

(** ** The builder raises nothing but console errors *)

Lemma termina_bind {A B} (P : estado -> Prop) (m : prog A)
    (Q : A -> estado -> Prop) (k : A -> prog B) (R : B -> estado -> Prop) :
  termina P m Q -> (forall a, termina (Q a) (k a) R) ->
  termina P (bind m k) R.
Proof.
  intros Hm Hk st HP. unfold bind. specialize (Hm st HP).
  destruct (m st) as [[a st1]|e]; [|done]. by apply Hk.
Qed.

Lemma termina_ret {A} (P : estado -> Prop) (a : A) :
  termina P (ret a) (fun _ => P).
Proof. by intros st HP. Qed.

Lemma termina_for {X} (Inv : estado -> Prop) (xs : list X)
    (cuerpo : X -> prog unit) :
  (forall x, x ∈ xs -> termina Inv (cuerpo x) (fun _ => Inv)) ->
  termina Inv (for_ xs cuerpo) (fun _ => Inv).
Proof.
  induction xs as [|x xs IH]; intros Hc; simpl.
  - apply termina_ret.
  - eapply termina_bind.
    + apply Hc, list_elem_of_here.
    + intros ?. apply IH. intros y Hy. by apply Hc, list_elem_of_further.
Qed.

Lemma termina_input (N : nat) :
  termina (tamanos N) input (fun _ => tamanos N).
Proof.
  intros st HP. unfold input. destruct (entrada st); [by right|done].
Qed.

Lemma termina_py_float (P : estado -> Prop) (l : linea) :
  termina P (lift (py_float l)) (fun _ => P).
Proof. intros st HP. unfold lift. destruct l; simpl; try done. by left. Qed.

Lemma termina_py_int (P : estado -> Prop) (l : linea) :
  termina P (lift (py_int l)) (fun _ => P).
Proof. intros st HP. unfold lift. destruct l; simpl; try done; by left. Qed.

Lemma mset_tamanos (N : nat) (M : list (list Q)) (i j : nat) (v : Q) :
  length M = N -> Forall (fun fila => length fila = N) M ->
  (i < N)%nat -> (j < N)%nat ->
  exists M', mset M i j v = Some M'
    /\ length M' = N /\ Forall (fun fila => length fila = N) M'.
Proof.
  intros HM Hfilas Hi Hj. unfold mset.
  destruct (M !! i) as [fila|] eqn:Hfila.
  - assert (length fila = N) as Hlen.
    { rewrite Forall_forall in Hfilas. apply Hfilas.
      apply list_elem_of_lookup. eauto. }
    rewrite decide_True by lia. eexists. split; [done|].
    split; [by rewrite length_insert|].
    apply Forall_insert; [done|]. by rewrite length_insert.
  - apply lookup_ge_None in Hfila. lia.
Qed.

Lemma mget_tamanos (N : nat) (M : list (list Q)) (i j : nat) :
  length M = N -> Forall (fun fila => length fila = N) M ->
  (i < N)%nat -> (j < N)%nat -> is_Some (mget M i j).
Proof.
  intros HM Hfilas Hi Hj. unfold mget.
  destruct (M !! i) as [fila|] eqn:Hfila.
  - assert (length fila = N) as Hlen.
    { rewrite Forall_forall in Hfilas. apply Hfilas.
      apply list_elem_of_lookup. eauto. }
    apply lookup_lt_is_Some. lia.
  - apply lookup_ge_None in Hfila. lia.
Qed.

Lemma termina_asignar_vector_V (N i : nat) (v : Q) :
  (i < N)%nat ->
  termina (tamanos N) (asignar_vector_V i v) (fun _ => tamanos N).
Proof.
  intros Hi st (HM & Hf & HV). unfold asignar_vector_V.
  rewrite decide_True by lia.
  repeat split; cbn [matriz_R vector_V]; try done. by rewrite length_insert.
Qed.

Lemma termina_asignar_matriz_R (N i j : nat) (v : Q) :
  (i < N)%nat -> (j < N)%nat ->
  termina (tamanos N) (asignar_matriz_R i j v) (fun _ => tamanos N).
Proof.
  intros Hi Hj st (HM & Hf & HV). unfold asignar_matriz_R.
  destruct (mset_tamanos N (matriz_R st) i j v HM Hf Hi Hj)
    as (M' & -> & HM' & Hf').
  by repeat split.
Qed.

Lemma termina_sumar_matriz_R (N i j : nat) (v : Q) :
  (i < N)%nat -> (j < N)%nat ->
  termina (tamanos N) (sumar_matriz_R i j v) (fun _ => tamanos N).
Proof.
  intros Hi Hj st HP. unfold sumar_matriz_R.
  destruct HP as (HM & Hf & HV).
  destruct (mget_tamanos N (matriz_R st) i j HM Hf Hi Hj) as [x ->].
  by apply termina_asignar_matriz_R.
Qed.

Lemma termina_leer_suma_r_propias (N : nat) :
  termina (tamanos N) leer_suma_r_propias (fun _ => tamanos N).
Proof. by intros st HP. Qed.

Lemma termina_asignar_suma_r_propias (N : nat) (v : Q) :
  termina (tamanos N) (asignar_suma_r_propias v) (fun _ => tamanos N).
Proof. by intros st HP. Qed.

Lemma termina_registrar (N : nat) (nombre : string) (inf : info) :
  termina (tamanos N) (registrar nombre inf) (fun _ => tamanos N).
Proof. by intros st HP. Qed.

Lemma termina_leer_resistencia_propia (N i j : nat) :
  termina (tamanos N) (leer_resistencia_propia i j) (fun _ => tamanos N).
Proof.
  unfold leer_resistencia_propia.
  eapply termina_bind; [apply termina_input|]. intros l.
  eapply termina_bind; [apply termina_py_float|]. intros r_val.
  eapply termina_bind; [apply termina_leer_suma_r_propias|]. intros s.
  eapply termina_bind; [apply termina_asignar_suma_r_propias|]. intros ?.
  apply termina_registrar.
Qed.

Lemma termina_configurar_malla (N i : nat) :
  (i < N)%nat ->
  termina (tamanos N) (configurar_malla i) (fun _ => tamanos N).
Proof.
  intros Hi. unfold configurar_malla.
  eapply termina_bind; [apply termina_input|]. intros l.
  eapply termina_bind; [apply termina_py_float|]. intros v.
  eapply termina_bind; [by apply termina_asignar_vector_V|]. intros ?.
  eapply termina_bind; [apply termina_input|]. intros l'.
  eapply termina_bind; [apply termina_py_int|]. intros num.
  eapply termina_bind; [apply termina_asignar_suma_r_propias|]. intros ?.
  eapply termina_bind.
  { apply termina_for. intros j _. apply termina_leer_resistencia_propia. }
  intros ?.
  eapply termina_bind; [apply termina_leer_suma_r_propias|]. intros s.
  by apply termina_asignar_matriz_R.
Qed.

Lemma termina_configurar_compartida (N i j : nat) :
  (i < N)%nat -> (j < N)%nat ->
  termina (tamanos N) (configurar_compartida i j) (fun _ => tamanos N).
Proof.
  intros Hi Hj. unfold configurar_compartida.
  eapply termina_bind; [apply termina_input|]. intros l.
  eapply termina_bind; [apply termina_py_float|]. intros r_comp.
  destruct (Qlt_le_dec 0 r_comp); [|apply termina_ret].
  eapply termina_bind; [by apply termina_sumar_matriz_R|]. intros ?.
  eapply termina_bind; [by apply termina_sumar_matriz_R|]. intros ?.
  eapply termina_bind; [by apply termina_asignar_matriz_R|]. intros ?.
  eapply termina_bind; [by apply termina_asignar_matriz_R|]. intros ?.
  apply termina_registrar.
Qed.

Lemma elem_of_range (a b x : nat) : x ∈ range a b -> (a <= x < b)%nat.
Proof. unfold range. rewrite elem_of_seq. lia. Qed.

Lemma termina_construir (N : nat) :
  termina (tamanos N) (construir N) (fun _ => tamanos N).
Proof.
  unfold construir. eapply termina_bind.
  { apply termina_for. intros i Hi. apply elem_of_range in Hi.
    apply termina_configurar_malla. lia. }
  intros ?. apply termina_for. intros i Hi. apply elem_of_range in Hi.
  apply termina_for. intros j Hj. apply elem_of_range in Hj.
  apply termina_configurar_compartida; lia.
Qed.

Lemma tamanos_inicial (N : nat) (lineas : list linea) :
  tamanos N (estado_inicial N lineas).
Proof.
  unfold tamanos, estado_inicial. cbn [matriz_R vector_V].
  rewrite !length_replicate. repeat split.
  apply Forall_replicate. by rewrite length_replicate.
Qed.

(** X1: the arrays keep their shapes through the whole build: after any
    completed build [matriz_R] has [N] rows of [N] cells and [vector_V] has
    [N] cells. *)
Theorem construir_tamanos (N : nat) (lineas : list linea) (st : estado) :
  construir N (estado_inicial N lineas) = Ok (tt, st) -> tamanos N st.
Proof.
  intros Hrun.
  pose proof (termina_construir N _ (tamanos_inicial N lineas)) as H.
  by rewrite Hrun in H.
Qed.

Lemma construir_tamanos_witness : tamanos 2 estado_escenario_2.
Proof.
  apply (construir_tamanos 2 lineas_escenario_2 estado_escenario_2).
  vm_compute. reflexivity.
Defined.

Lemma construir_Raise (N : nat) (lineas : list linea) (e : excepcion) :
  construir N (estado_inicial N lineas) = Raise e -> error_de_entrada e.
Proof.
  intros Hrun.
  pose proof (termina_construir N _ (tamanos_inicial N lineas)) as H.
  by rewrite Hrun in H.
Qed.

(** X2: whatever is typed, the two loops never index an array out of
    bounds: the build can only stop on a line that is not a number
    ([ValueError]) or on the end of the input ([EOFError]). *)
Theorem construir_solo_errores_de_entrada
    (N : nat) (lineas : list linea) (e : excepcion) :
  construir N (estado_inicial N lineas) = Raise e ->
  e = ValueError \/ e = EOFError.
Proof. apply construir_Raise. Qed.

Lemma construir_solo_errores_de_entrada_witness :
  EOFError = ValueError \/ EOFError = EOFError.
Proof.
  apply (construir_solo_errores_de_entrada 2
           [Entero 10; Entero 1; Entero 2] EOFError).
  vm_compute. reflexivity.
Defined.

(** ** The registry of a run names meshes of the circuit *)

Lemma Forall_dict_set {V} (P : string * V -> Prop) (d : dict V)
    (k : string) (v : V) :
  Forall P d -> P (k, v) -> Forall P (dict_set d k v).
Proof.
  intros Hd Hv. induction Hd as [|[k0 v0] d H0 Hd IH]; simpl.
  - by constructor.
  - destruct (String.eqb k0 k); by constructor.
Qed.

Lemma leer_resistencia_propia_valida N i j st st' :
  (i < N)%nat ->
  Forall (entrada_valida N) (resistencias st) ->
  leer_resistencia_propia i j st = Ok (tt, st') ->
  Forall (entrada_valida N) (resistencias st').
Proof.
  intros Hi Hreg Hrun. unfold leer_resistencia_propia in Hrun.
  inv_prog Hrun. unfold registrar in Hrun. injection Hrun as <-.
  cbn [resistencias]. apply Forall_dict_set; [done|].
  unfold entrada_valida, indice_valido. simpl. lia.
Qed.

Lemma configurar_malla_valida N i st st' :
  (i < N)%nat ->
  Forall (entrada_valida N) (resistencias st) ->
  configurar_malla i st = Ok (tt, st') ->
  Forall (entrada_valida N) (resistencias st').
Proof.
  intros Hi Hreg Hrun. unfold configurar_malla in Hrun. inv_prog Hrun.
  apply asignar_matriz_R_Ok in Hrun as (M & _ & ->). cbn [resistencias].
  match goal with
  | Hfor : for_ _ _ _ = Ok (?u, _) |- _ =>
      destruct u;
      apply (for_Ok_inv
               (fun s => Forall (entrada_valida N) (resistencias s)))
        in Hfor; [done| |done]
  end.
  intros j s s' _. by apply leer_resistencia_propia_valida.
Qed.

Lemma configurar_compartida_valida N i j st st' :
  (i < j)%nat -> (j < N)%nat ->
  Forall (entrada_valida N) (resistencias st) ->
  configurar_compartida i j st = Ok (tt, st') ->
  Forall (entrada_valida N) (resistencias st').
Proof.
  intros Hij Hj Hreg Hrun. unfold configurar_compartida in Hrun.
  inv_prog Hrun. destruct (Qlt_le_dec 0 _) as [Hpos|_].
  - inv_prog Hrun.
    repeat match goal with
    | H : sumar_matriz_R _ _ _ _ = Ok _ |- _ =>
        apply sumar_matriz_R_Ok in H as (? & ? & _ & _ & ->)
    | H : asignar_matriz_R _ _ _ _ = Ok _ |- _ =>
        apply asignar_matriz_R_Ok in H as (? & _ & ->)
    end.
    unfold registrar in Hrun. injection Hrun as <-.
    cbn [resistencias]. apply Forall_dict_set; [done|].
    unfold entrada_valida, indice_valido. simpl. repeat split; (lia || done).
  - unfold ret in Hrun. by injection Hrun as <-.
Qed.

Lemma construir_entradas_validas
    (N : nat) (lineas : list linea) (st : estado) :
  construir N (estado_inicial N lineas) = Ok (tt, st) ->
  Forall (entrada_valida N) (resistencias st).
Proof.
  unfold construir. intros Hrun. inv_prog Hrun.
  pose (Inv := fun s : estado => Forall (entrada_valida N) (resistencias s)).
  match goal with
  | H1 : for_ _ configurar_malla _ = Ok (?u, _) |- _ =>
      destruct u; apply (for_Ok_inv Inv) in H1; [| |by constructor]
  end.
  - apply (for_Ok_inv Inv) in Hrun; [done| |done].
    intros i s s' Hi%elem_of_range Hs Hrun'.
    apply (for_Ok_inv Inv) in Hrun'; [done| |done].
    intros j t t' Hj%elem_of_range. apply configurar_compartida_valida; lia.
  - intros i s s' Hi%elem_of_range. apply configurar_malla_valida. lia.
Qed.

(** X3: every resistor the builder registers names meshes of the circuit:
    an own resistor its mesh [0 .. N-1], a shared one two meshes [i < j]
    below [N]; and a registered shared resistor has a positive value. *)
Theorem construir_registro_valido
    (N : nat) (lineas : list linea) (st : estado) :
  construir N (estado_inicial N lineas) = Ok (tt, st) ->
  Forall (entrada_valida N) (resistencias st).
Proof. apply construir_entradas_validas. Qed.

Lemma construir_registro_valido_witness :
  Forall (entrada_valida 2) (resistencias estado_escenario_2).
Proof.
  apply (construir_registro_valido 2 lineas_escenario_2 estado_escenario_2).
  vm_compute. reflexivity.
Defined.

(** ** The resolver as a map over the registry *)

Lemma fold_almacenar_app (I : list Q) (reg : dict info)
    (acc : dict resultado) :
  NoDup (claves acc ++ claves reg) ->
  fold_left (almacenar I) reg acc
  = acc ++ map (fun par => (fst par, resolver I (snd par))) reg.
Proof.
  revert acc. induction reg as [|[k inf] reg IH]; intros acc Hnd; simpl.
  - by rewrite app_nil_r.
  - simpl in Hnd.
    assert (k ∉ claves acc) as Hk.
    { apply NoDup_app in Hnd as (_ & Hdis & _). intros Hin.
      apply (Hdis k Hin), list_elem_of_here. }
    rewrite dict_set_nueva by done.
    rewrite IH.
    + by rewrite <- app_assoc.
    + unfold claves in *. rewrite map_app, <- app_assoc. done.
Qed.

(** The output of the resolver lists the registry in its order, each
    resistor with its own result. *)
Lemma calcular_potencia_map (I : list Q) (reg : dict info) :
  NoDup (claves reg) ->
  calcular_potencia reg I
  = map (fun par => (fst par, resolver I (snd par))) reg.
Proof. intros Hnd. unfold calcular_potencia. by rewrite fold_almacenar_app. Qed.

Lemma potencia_total_map (I : list Q) (reg : dict info) :
  potencia_total (map (fun par => (fst par, resolver I (snd par))) reg)
  == suma_lista (map (fun par => potencia_de I (snd par)) reg).
Proof.
  rewrite potencia_total_suma. unfold suma_potencias_sin_error, valores.
  induction reg as [|[k inf] reg IH]; simpl; [reflexivity|].
  unfold resolver, potencia_de at 1.
  destruct (corriente_resistor (topo inf) I) as [c|e]; simpl;
    rewrite IH; ring.
Qed.

Lemma potencia_de_no_negativa (I : list Q) (inf : info) :
  0 <= valor inf -> 0 <= potencia_de I inf.
Proof.
  intros Hr. unfold potencia_de.
  destruct (corriente_resistor (topo inf) I) as [c|e]; [|lra].
  by apply potencia_no_negativa.
Qed.

(** X4: the total of the powers the resolver stores is the sum, over the
    registry, of [c^2 * r] for the resistors whose current [c] is read
    without error; resistors with a rejected index add nothing.  When no
    resistance is negative the total is not negative. *)
Theorem potencia_total_calcular_potencia (reg : dict info) (I : list Q) :
  NoDup (claves reg) ->
  potencia_total (calcular_potencia reg I)
  == suma_lista (map (fun par => potencia_de I (snd par)) reg)
  /\ (Forall (fun par => 0 <= valor (snd par)) reg ->
      0 <= potencia_total (calcular_potencia reg I)).
Proof.
  intros Hnd. rewrite calcular_potencia_map by done.
  split; [apply potencia_total_map|].
  intros Hpos. rewrite potencia_total_map.
  induction Hpos as [|[k inf] reg Hr _ IH]; simpl; [lra|].
  apply NoDup_cons in Hnd as [_ Hnd].
  pose proof (potencia_de_no_negativa I inf Hr). specialize (IH Hnd). lra.
Qed.

Lemma potencia_total_calcular_potencia_witness :
  potencia_total
    (calcular_potencia
       [("R1_p1", mk_info 2 (Malla 0)); ("R_c1-6", mk_info 1 (Mallas 0 5));
        ("R3_p1", mk_info 4 (Malla 2))] [1; 2; 3])
  == suma_lista
       (map (fun par => potencia_de [1; 2; 3] (snd par))
          [("R1_p1", mk_info 2 (Malla 0)); ("R_c1-6", mk_info 1 (Mallas 0 5));
           ("R3_p1", mk_info 4 (Malla 2))])
  /\ 0 <= potencia_total
            (calcular_potencia
               [("R1_p1", mk_info 2 (Malla 0));
                ("R_c1-6", mk_info 1 (Mallas 0 5));
                ("R3_p1", mk_info 4 (Malla 2))] [1; 2; 3]).
Proof.
  destruct (potencia_total_calcular_potencia
              [("R1_p1", mk_info 2 (Malla 0));
               ("R_c1-6", mk_info 1 (Mallas 0 5));
               ("R3_p1", mk_info 4 (Malla 2))] [1; 2; 3]) as [Hsum Hpos].
  - vm_compute. repeat constructor;
      rewrite ?elem_of_cons, ?elem_of_nil; intros H; intuition discriminate.
  - split; [exact Hsum|]. apply Hpos.
    repeat constructor; vm_compute; discriminate.
Defined.

(** ** The report of a run *)

Lemma mapM_np_getitem (pre suf : list Q) :
  mapM (fun i => np_getitem (pre ++ suf) (Z.of_nat i))
    (seq (length pre) (length suf))
  = Ok suf.
Proof.
  revert pre. induction suf as [|x suf IH]; intros pre; simpl; [done|].
  rewrite np_getitem_valido.
  - unfold corriente_malla. rewrite Nat2Z.id.
    rewrite (nth_lookup_Some (pre ++ x :: suf) (length pre) 0 x)
      by (by rewrite list_lookup_middle).
    cbn [res_bind].
    replace (pre ++ x :: suf) with ((pre ++ [x]) ++ suf)
      by (by rewrite <- app_assoc).
    replace (S (length pre)) with (length (pre ++ [x]))
      by (rewrite length_app; simpl; lia).
    by rewrite IH.
  - unfold indice_valido. rewrite length_app. simpl. lia.
Qed.

Lemma mapM_np_getitem_todas (I : list Q) :
  mapM (fun i => np_getitem I (Z.of_nat i)) (seq 0 (length I)) = Ok I.
Proof. exact (mapM_np_getitem [] I). Qed.

Lemma mapM_fila_tabla_R (I : list Q) (reg : dict info) :
  Forall (fun par => en_rango (length I) (topo (snd par))) reg ->
  mapM fila_tabla_R (map (fun par => (fst par, resolver I (snd par))) reg)
  = Ok (map (fila_medida I) reg).
Proof.
  induction 1 as [|[k inf] reg Hr _ IH]; simpl; [done|].
  rewrite resolver_en_rango by done. simpl. by rewrite IH.
Qed.

Lemma entrada_valida_en_rango (N : nat) (par : string * info) :
  entrada_valida N par -> en_rango N (topo (snd par)).
Proof.
  unfold entrada_valida, en_rango. destruct (topo (snd par)); tauto.
Qed.

(** X5: when the build completes and the solver returns one current per mesh,
    the run ends with the report: the currents as returned, one row per
    registered resistor in the order of the registry (value, absolute
    current, power), none of them an error marker, and the total.  The
    "unexpected error" handler is not reached. *)
Theorem main_informe
    (linalg_solve : list (list Q) -> list Q -> res (list Q))
    (N : Z) (lineas : list linea) (st : estado) (I : list Q) :
  (0 < N)%Z ->
  construir (Z.to_nat N) (estado_inicial (Z.to_nat N) lineas) = Ok (tt, st) ->
  linalg_solve (matriz_R st) (vector_V st) = Ok I ->
  length I = Z.to_nat N ->
  main linalg_solve (Entero N :: lineas)
  = Informe I (map (fila_medida I) (resistencias st))
      (potencia_total (calcular_potencia (resistencias st) I)).
Proof.
  intros HN Hrun Hsolve Hlen. unfold main. cbn [py_int].
  destruct (Z.leb_spec N 0) as [?|_]; [lia|].
  rewrite Hrun. unfold resolver_e_informar. rewrite Hsolve. cbn [res_bind].
  assert (NoDup (claves (resistencias st))) as Hnd.
  { eapply construir_claves_NoDup; [|exact Hrun]. constructor. }
  assert (Forall (fun par => en_rango (length I) (topo (snd par)))
            (resistencias st)) as Hreg.
  { rewrite Hlen. eapply Forall_impl;
      [by eapply construir_entradas_validas|].
    intros par. apply entrada_valida_en_rango. }
  unfold range. rewrite Nat.sub_0_r, <- Hlen.
  rewrite mapM_np_getitem_todas. cbn [res_bind].
  rewrite calcular_potencia_map by done.
  by rewrite mapM_fila_tabla_R.
Qed.

Lemma main_informe_witness :
  main linalg_solve_exacto (Entero 2 :: lineas_escenario_2)
  = Informe [360 # 99; 30 # 33]
      (map (fila_medida [360 # 99; 30 # 33])
         (resistencias estado_escenario_2))
      (potencia_total
         (calcular_potencia (resistencias estado_escenario_2)
            [360 # 99; 30 # 33])).
Proof.
  apply (main_informe linalg_solve_exacto 2 lineas_escenario_2
           estado_escenario_2 [360 # 99; 30 # 33]).
  - lia.
  - vm_compute. reflexivity.
  - vm_compute. reflexivity.
  - reflexivity.
Defined.

(** ** The outcomes of [main] *)

Lemma resolver_e_informar_salida
    (linalg_solve : list (list Q) -> list Q -> res (list Q))
    (N : nat) (st : estado) :
  (exists tabla_I tabla_R total,
      resolver_e_informar linalg_solve N st = Informe tabla_I tabla_R total)
  \/ resolver_e_informar linalg_solve N st = SistemaIndeterminado
  \/ (exists e, resolver_e_informar linalg_solve N st = ErrorInesperado e).
Proof.
  unfold resolver_e_informar.
  destruct (linalg_solve (matriz_R st) (vector_V st)) as [I|e];
    cbn [res_bind].
  - destruct (mapM _ (range 0 N)) as [tabla_I|e]; cbn [res_bind].
    + destruct (mapM fila_tabla_R _) as [tabla_R|e]; cbn [res_bind].
      * left. eauto.
      * destruct e; eauto.
    + destruct e; eauto.
  - destruct e; eauto.
Qed.

(** X7: the two messages about the number of meshes are shown exactly for a
    first line that is an integer not above [0], and for a first line that
    [int()] rejects; nothing typed later and no later step produces them. *)
Theorem main_numero_de_mallas
    (linalg_solve : list (list Q) -> list Q -> res (list Q))
    (lineas : list linea) :
  (main linalg_solve lineas = ErrorMallasNoPositivo
   <-> exists N resto, lineas = Entero N :: resto /\ (N <= 0)%Z)
  /\ (main linalg_solve lineas = ErrorDebeIngresarNumero
      <-> exists l resto, lineas = l :: resto /\ py_int l = Raise ValueError).
Proof.
  unfold main. destruct lineas as [|l resto].
  { split; (split; [discriminate|]); intros (? & ? & ? & _); discriminate. }
  destruct l as [N|q|]; cbn [py_int].
  - destruct (Z.leb_spec N 0) as [HN|HN].
    + split; split; try done.
      * intros _. by exists N, resto.
      * intros (? & ? & [= <- <-] & ?). discriminate.
    + assert (match construir (Z.to_nat N)
                      (estado_inicial (Z.to_nat N) resto) with
              | Ok (_, st) => resolver_e_informar linalg_solve (Z.to_nat N) st
              | Raise ValueError => ErrorEntradaNoValida
              | Raise e => NoCapturada e
              end <> ErrorMallasNoPositivo
              /\ match construir (Z.to_nat N)
                         (estado_inicial (Z.to_nat N) resto) with
                 | Ok (_, st) =>
                     resolver_e_informar linalg_solve (Z.to_nat N) st
                 | Raise ValueError => ErrorEntradaNoValida
                 | Raise e => NoCapturada e
                 end <> ErrorDebeIngresarNumero) as [H1 H2].
      { destruct (construir _ _) as [[[] st]|e'].
        - destruct (resolver_e_informar_salida linalg_solve (Z.to_nat N) st)
            as [(? & ? & ? & ->)|[->|[? ->]]]; by split.
        - destruct e'; by split. }
      split; split; try done.
      * intros (? & ? & [= <- <-] & ?). lia.
      * intros (? & ? & [= <- <-] & ?). discriminate.
  - split; split; try done.
    + intros (? & ? & [=] & _).
    + intros _. by exists (Decimal q), resto.
  - split; split; try done.
    + intros (? & ? & [=] & _).
    + intros _. by exists NoNumerica, resto.
Qed.

Lemma main_numero_de_mallas_witness :
  main linalg_solve_exacto [Entero 0; Entero 10; Entero 1; Entero 5]
  = ErrorMallasNoPositivo.
Proof.
  apply (proj1 (main_numero_de_mallas linalg_solve_exacto
                  [Entero 0; Entero 10; Entero 1; Entero 5])).
  exists 0%Z, [Entero 10; Entero 1; Entero 5]. split; [reflexivity|lia].
Defined.

(** ** Indices that count from the end *)

Lemma np_getitem_aceptado (a : list Q) (i : Z) :
  indice_aceptado (length a) i ->
  np_getitem a i = Ok (corriente_malla a (posicion (length a) i)).
Proof.
  unfold indice_aceptado, posicion. intros Hi.
  destruct (Z.ltb_spec i 0) as [Hneg|Hpos].
  - apply np_getitem_negativo. lia.
  - apply np_getitem_valido. unfold indice_valido. lia.
Qed.

Lemma indice_no_aceptado (N : nat) (i : Z) :
  ~ indice_aceptado N i -> indice_rechazado N i.
Proof. unfold indice_aceptado, indice_rechazado. lia. Qed.

(** X8: the entry of a resistor is numeric exactly when each of its indices is
    one of [-N .. N-1]: then an index below [0] stands for the mesh counted
    from the end ([-1] is the last mesh), and the entry holds the current and
    the power computed with those meshes; otherwise it is the error marker. *)
Theorem calcular_potencia_indices_aceptados
    (reg : dict info) (I : list Q) (nombre : string) (inf : info) :
  NoDup (claves reg) ->
  (nombre, inf) ∈ reg ->
  (aceptada (length I) (topo inf) ->
   dict_get (calcular_potencia reg I) nombre
   = Some (Medido (valor inf)
             (Qabs (corriente_bruta
                      (topologia_efectiva (length I) (topo inf)) I))
             (corriente_bruta (topologia_efectiva (length I) (topo inf)) I
                ^ 2 * valor inf)))
  /\ (~ aceptada (length I) (topo inf) ->
      exists m : string,
        dict_get (calcular_potencia reg I) nombre
        = Some (Fallido (valor inf) m)).
Proof.
  intros Hnd Hin.
  rewrite (calcular_potencia_get I reg nombre inf Hnd Hin). split.
  - intros Hac. f_equal. unfold resolver, corriente_resistor.
    destruct (topo inf) as [i|i j]; simpl in *.
    + by rewrite np_getitem_aceptado.
    + destruct Hac as [Hi Hj]. by rewrite !np_getitem_aceptado.
  - intros Hno.
    assert (rechazada (length I) (topo inf)) as Hr.
    { destruct (topo inf) as [i|i j]; simpl in *.
      - by apply indice_no_aceptado.
      - destruct (decide (indice_aceptado (length I) i)) as [Hi|Hi].
        + right. apply indice_no_aceptado. tauto.
        + left. by apply indice_no_aceptado. }
    destruct (resolver_rechazada I inf Hr) as [k ->]. eauto.
Qed.

Lemma calcular_potencia_indices_aceptados_witness :
  dict_get
    (calcular_potencia
       [("R1_p1", mk_info 5 (Malla (-1))); ("R_c", mk_info 2 (Mallas (-3) 1))]
       [7; 4; 1]) "R_c"
  = Some (Medido 2 (Qabs (7 - 4)) ((7 - 4) ^ 2 * 2)).
Proof.
  destruct (calcular_potencia_indices_aceptados
              [("R1_p1", mk_info 5 (Malla (-1)));
               ("R_c", mk_info 2 (Mallas (-3) 1))]
              [7; 4; 1] "R_c" (mk_info 2 (Mallas (-3) 1))) as [Hac _].
  - vm_compute. repeat constructor;
      rewrite ?elem_of_cons, ?elem_of_nil; intros H; intuition discriminate.
  - apply list_elem_of_further, list_elem_of_here.
  - apply Hac. vm_compute. intuition discriminate.
Defined.

(** ** A complete description is read to the end *)

Lemma py_float_numerica (l : linea) :
  numerica l -> py_float l = Ok (valor_de l).
Proof. unfold numerica, valor_de. by destruct l. Qed.

Lemma leer_resistencia_propia_completa i j st l resto :
  numerica l -> entrada st = l :: resto ->
  leer_resistencia_propia i j st
  = Ok (tt, mk_estado resto (matriz_R st) (vector_V st)
              (dict_set (resistencias st) (nombre_propia i j)
                 (mk_info (valor_de l) (Malla (Z.of_nat i))))
              (suma_r_propias st + valor_de l)).
Proof.
  intros Hl Hent.
  unfold leer_resistencia_propia, bind, input, lift, leer_suma_r_propias,
    asignar_suma_r_propias, registrar.
  rewrite Hent, (py_float_numerica l Hl). reflexivity.
Qed.

Lemma propias_completa i M0 reg0 (ls : list linea) :
  forall j st resto,
    Forall numerica ls ->
    entrada st = ls ++ resto ->
    inv_propias i M0 reg0 j st ->
    exists st',
      for_ (seq j (length ls)) (leer_resistencia_propia i) st = Ok (tt, st')
      /\ entrada st' = resto
      /\ vector_V st' = vector_V st
      /\ resistencias st'
         = resistencias st ++ registro_propias_desde i j ls
      /\ inv_propias i M0 reg0 (j + length ls) st'.
Proof.
  induction ls as [|l ls IH]; intros j st resto Hnum Hent Hinv.
  - exists st. simpl in *. rewrite app_nil_r, Nat.add_0_r.
    do 4 (split; [done|]). exact Hinv.
  - apply Forall_cons in Hnum as [Hl Hnum].
    pose proof (leer_resistencia_propia_completa i j st l (ls ++ resto)
                  Hl Hent) as Hpaso.
    pose proof (leer_resistencia_propia_inv _ _ _ _ _ _ Hinv Hpaso) as Hinv1.
    assert (nombre_propia i j ∉ claves (resistencias st)) as Hnueva.
    { destruct Hinv as (_ & _ & Hreg & _).
      eapply nombre_propia_nueva; [exact Hreg|]. unfold antes. lia. }
    match type of Hpaso with
    | _ = Ok (tt, ?s1) =>
        destruct (IH (S j) s1 resto Hnum eq_refl Hinv1)
          as (st' & Hrun & Hent' & HV & Hreg' & Hinv')
    end.
    exists st'. cbn [length seq for_]. unfold bind at 1. rewrite Hpaso.
    split; [exact Hrun|]. split; [done|]. split; [done|]. split.
    + rewrite Hreg'. cbn [resistencias]. rewrite dict_set_nueva by done.
      by rewrite <- app_assoc.
    + by replace (j + S (length ls))%nat with (S j + length ls)%nat by lia.
Qed.

Lemma bind_paso {A B} (m : prog A) (k : A -> prog B) st a st1 :
  m st = Ok (a, st1) -> bind m k st = k a st1.
Proof. intros H. unfold bind. by rewrite H. Qed.

Lemma inv_propias_inicial N i st ent V :
  inv_mallas N i st ->
  inv_propias i (matriz_R st) (resistencias st) 0
    (mk_estado ent (matriz_R st) V (resistencias st) 0).
Proof.
  intros [_ Hreg]. unfold inv_propias.
  cbn [matriz_R resistencias suma_r_propias].
  split; [done|]. split; [|split].
  - rewrite (suma_propias_ninguna _ _ _ i Hreg); [reflexivity|].
    intros _. lia.
  - eapply Forall_impl; [exact Hreg|]. intros par.
    apply registrada_impl; [|done]. unfold antes. lia.
  - reflexivity.
Qed.

Lemma configurar_malla_completa N i (m : linea * list linea) st resto :
  (i < N)%nat ->
  tamanos N st ->
  inv_mallas N i st ->
  numerica (fst m) -> Forall numerica (snd m) ->
  entrada st = lineas_de_malla m ++ resto ->
  exists st',
    configurar_malla i st = Ok (tt, st')
    /\ entrada st' = resto
    /\ vector_V st' = <[i := valor_de (fst m)]> (vector_V st)
    /\ resistencias st'
       = resistencias st ++ registro_propias_desde i 0 (snd m)
    /\ inv_mallas N (S i) st'
    /\ tamanos N st'.
Proof.
  intros Hi Htam Hinv Hl1 Hls Hent. destruct m as [l1 ls]. simpl in *.
  assert (exists st',
             configurar_malla i st = Ok (tt, st')
             /\ entrada st' = resto
             /\ vector_V st' = <[i := valor_de l1]> (vector_V st)
             /\ resistencias st'
                = resistencias st ++ registro_propias_desde i 0 ls)
    as (st' & Hrun & Hent' & HV & Hreg).
  { destruct (propias_completa i (matriz_R st) (resistencias st) ls 0
                (mk_estado (ls ++ resto) (matriz_R st)
                   (<[i := valor_de l1]> (vector_V st)) (resistencias st) 0)
                resto Hls eq_refl
                (inv_propias_inicial N i st _ _ Hinv))
      as (st1 & Hfor & Hent1 & HV1 & Hreg1 & (HM1 & _)).
    destruct Htam as (HM & Hfilas & HVlen).
    destruct (mset_tamanos N (matriz_R st) i i (suma_r_propias st1)
                HM Hfilas Hi Hi) as (M' & HM' & _).
    exists (mk_estado resto M' (<[i := valor_de l1]> (vector_V st))
              (resistencias st ++ registro_propias_desde i 0 ls)
              (suma_r_propias st1)).
    split; [|done].
    unfold configurar_malla.
    erewrite bind_paso; [|unfold input; rewrite Hent; reflexivity].
    erewrite bind_paso;
      [|unfold lift; rewrite (py_float_numerica l1 Hl1); reflexivity].
    erewrite bind_paso;
      [|unfold asignar_vector_V; cbn [vector_V];
        rewrite decide_True by lia; reflexivity].
    erewrite bind_paso; [|reflexivity].
    erewrite bind_paso; [|reflexivity].
    erewrite bind_paso; [|reflexivity].
    erewrite bind_paso;
      [|unfold range; rewrite Nat2Z.id, Nat.sub_0_r; exact Hfor].
    erewrite bind_paso; [|reflexivity].
    unfold asignar_matriz_R. rewrite HM1, HM'.
    by rewrite Hent1, HV1, Hreg1. }
  exists st'. do 4 (split; [done|]). split.
  - by eapply configurar_malla_inv.
  - pose proof (termina_configurar_malla N i Hi st Htam) as H.
    by rewrite Hrun in H.
Qed.

Lemma mallas_completa N (ms : list (linea * list linea)) :
  forall i st resto,
    (i + length ms <= N)%nat ->
    tamanos N st ->
    inv_mallas N i st ->
    Forall (fun m => numerica (fst m) /\ Forall numerica (snd m)) ms ->
    entrada st = concat (map lineas_de_malla ms) ++ resto ->
    exists st',
      for_ (seq i (length ms)) configurar_malla st = Ok (tt, st')
      /\ entrada st' = resto
      /\ vector_V st'
         = take i (vector_V st) ++ map (fun m => valor_de (fst m)) ms
             ++ drop (i + length ms) (vector_V st)
      /\ resistencias st' = resistencias st ++ registro_mallas_desde i ms
      /\ inv_mallas N (i + length ms) st'
      /\ tamanos N st'.
Proof.
  induction ms as [|m ms IH]; intros i st resto Hlen Htam Hinv Hnum Hent.
  - exists st. simpl in *. rewrite app_nil_r, Nat.add_0_r, take_drop.
    by do 5 (split; [done|]).
  - apply Forall_cons in Hnum as [[Hl Hls] Hnum]. simpl in Hlen, Hent.
    rewrite <- app_assoc in Hent.
    destruct (configurar_malla_completa N i m st _ ltac:(lia) Htam Hinv
                Hl Hls Hent)
      as (st1 & Hpaso & Hent1 & HV1 & Hreg1 & Hinv1 & Htam1).
    destruct (IH (S i) st1 resto ltac:(lia) Htam1 Hinv1 Hnum Hent1)
      as (st' & Hrun & Hent' & HV & Hreg & Hinv' & Htam').
    exists st'. cbn [length seq for_].
    rewrite (bind_paso _ _ _ _ _ Hpaso).
    split; [exact Hrun|]. split; [done|].
    assert (i < length (vector_V st))%nat as Hi
      by (destruct Htam as (_ & _ & ->); lia).
    split; [|split; [|split]].
    + rewrite HV, HV1. cbn [map].
      rewrite (take_S_r _ _ (valor_de (fst m)))
        by (by apply list_lookup_insert_eq).
      rewrite take_insert_ge by lia.
      rewrite drop_insert_lt by lia.
      rewrite <- app_assoc. simpl.
      by replace (i + S (length ms))%nat with (S (i + length ms)) by lia.
    + rewrite Hreg, Hreg1. simpl. by rewrite <- app_assoc.
    + by replace (i + S (length ms))%nat with (S i + length ms)%nat by lia.
    + done.
Qed.

Lemma sumar_matriz_R_completa N i j v st :
  tamanos N st -> (i < N)%nat -> (j < N)%nat ->
  exists M,
    sumar_matriz_R i j v st
    = Ok (tt, mk_estado (entrada st) M (vector_V st) (resistencias st)
                (suma_r_propias st))
    /\ tamanos N (mk_estado (entrada st) M (vector_V st) (resistencias st)
                    (suma_r_propias st)).
Proof.
  intros (HM & Hf & HV) Hi Hj. unfold sumar_matriz_R, asignar_matriz_R.
  destruct (mget_tamanos N (matriz_R st) i j HM Hf Hi Hj) as [x ->].
  destruct (mset_tamanos N (matriz_R st) i j (x + v) HM Hf Hi Hj)
    as (M & -> & HM' & Hf').
  exists M. by repeat split.
Qed.

Lemma asignar_matriz_R_completa N i j v st :
  tamanos N st -> (i < N)%nat -> (j < N)%nat ->
  exists M,
    asignar_matriz_R i j v st
    = Ok (tt, mk_estado (entrada st) M (vector_V st) (resistencias st)
                (suma_r_propias st))
    /\ tamanos N (mk_estado (entrada st) M (vector_V st) (resistencias st)
                    (suma_r_propias st)).
Proof.
  intros (HM & Hf & HV) Hi Hj. unfold asignar_matriz_R.
  destruct (mset_tamanos N (matriz_R st) i j v HM Hf Hi Hj)
    as (M & -> & HM' & Hf').
  exists M. by repeat split.
Qed.

Lemma configurar_compartida_completa N i j st l resto :
  tamanos N st -> (i < N)%nat -> (j < N)%nat ->
  numerica l -> entrada st = l :: resto ->
  exists st',
    configurar_compartida i j st = Ok (tt, st')
    /\ entrada st' = resto
    /\ vector_V st' = vector_V st
    /\ resistencias st'
       = (if Qlt_le_dec 0 (valor_de l)
          then dict_set (resistencias st) (nombre_compartida i j)
                 (mk_info (valor_de l) (Mallas (Z.of_nat i) (Z.of_nat j)))
          else resistencias st).
Proof.
  intros Htam Hi Hj Hl Hent. unfold configurar_compartida.
  erewrite bind_paso; [|unfold input; rewrite Hent; reflexivity].
  erewrite bind_paso;
    [|unfold lift; rewrite (py_float_numerica l Hl); reflexivity].
  destruct (Qlt_le_dec 0 (valor_de l)) as [Hpos|Hneg].
  - assert (tamanos N (mk_estado resto (matriz_R st) (vector_V st)
                         (resistencias st) (suma_r_propias st))) as Htam0
      by exact Htam.
    destruct (sumar_matriz_R_completa N i i (valor_de l) _ Htam0 Hi Hi)
      as (M1 & H1 & Htam1).
    destruct (sumar_matriz_R_completa N j j (valor_de l) _ Htam1 Hj Hj)
      as (M2 & H2 & Htam2).
    destruct (asignar_matriz_R_completa N i j (- valor_de l) _ Htam2 Hi Hj)
      as (M3 & H3 & Htam3).
    destruct (asignar_matriz_R_completa N j i (- valor_de l) _ Htam3 Hj Hi)
      as (M4 & H4 & Htam4).
    cbn [entrada matriz_R vector_V resistencias suma_r_propias] in *.
    rewrite (bind_paso _ _ _ _ _ H1), (bind_paso _ _ _ _ _ H2),
      (bind_paso _ _ _ _ _ H3), (bind_paso _ _ _ _ _ H4).
    eexists. split; [reflexivity|]. by repeat split.
  - eexists. split; [reflexivity|]. by repeat split.
Qed.

Lemma compartidas_fila_completa N i (ls : list linea) :
  forall j st resto,
    (i < j)%nat -> (j + length ls <= N)%nat ->
    tamanos N st ->
    inv_compartidas N (antes i j) st ->
    Forall numerica ls ->
    entrada st = ls ++ resto ->
    exists st',
      for_ (seq j (length ls)) (fun j => configurar_compartida i j) st
      = Ok (tt, st')
      /\ entrada st' = resto
      /\ vector_V st' = vector_V st
      /\ resistencias st'
         = resistencias st ++ registro_compartidas_desde i j ls
      /\ inv_compartidas N (antes i (j + length ls)) st'
      /\ tamanos N st'.
Proof.
  induction ls as [|l ls IH]; intros j st resto Hij Hlen Htam Hinv Hnum Hent.
  - exists st. simpl in *. rewrite app_nil_r, Nat.add_0_r.
    by do 5 (split; [done|]).
  - apply Forall_cons in Hnum as [Hl Hnum]. simpl in Hlen, Hent.
    destruct (configurar_compartida_completa N i j st l (ls ++ resto) Htam
                ltac:(lia) ltac:(lia) Hl Hent)
      as (st1 & Hpaso & Hent1 & HV1 & Hreg1).
    assert (inv_compartidas N (antes i (S j)) st1) as Hinv1
      by (eapply configurar_compartida_inv; [| |exact Hinv|exact Hpaso]; lia).
    assert (tamanos N st1) as Htam1.
    { pose proof (termina_configurar_compartida N i j ltac:(lia) ltac:(lia)
                    st Htam) as H.
      by rewrite Hpaso in H. }
    assert (nombre_compartida i j ∉ claves (resistencias st)) as Hnueva.
    { destruct Hinv as [_ Hreg].
      eapply nombre_compartida_nueva; [exact Hreg|]. unfold antes. lia. }
    destruct (IH (S j) st1 resto ltac:(lia) ltac:(lia) Htam1 Hinv1 Hnum Hent1)
      as (st' & Hrun & Hent' & HV & Hreg & Hinv' & Htam').
    exists st'. cbn [length seq for_].
    rewrite (bind_paso _ _ _ _ _ Hpaso).
    split; [exact Hrun|]. split; [done|]. split; [congruence|].
    split; [|split; [|done]].
    + rewrite Hreg, Hreg1. simpl.
      destruct (Qlt_le_dec 0 (valor_de l)).
      * rewrite dict_set_nueva by done. by rewrite <- app_assoc.
      * done.
    + by replace (j + S (length ls))%nat with (S j + length ls)%nat by lia.
Qed.

Lemma compartidas_completa N (filas : list (list linea)) :
  forall i st resto,
    (i + length filas <= N)%nat ->
    filas_completas N i filas ->
    tamanos N st ->
    inv_compartidas N (fun a _ => (a < i)%nat) st ->
    entrada st = concat filas ++ resto ->
    exists st',
      for_ (seq i (length filas))
        (fun i => for_ (range (i + 1) N) (fun j => configurar_compartida i j))
        st
      = Ok (tt, st')
      /\ entrada st' = resto
      /\ vector_V st' = vector_V st
      /\ resistencias st' = resistencias st ++ registro_filas_desde i filas.
Proof.
  induction filas as [|f fs IH]; intros i st resto Hlen Hfilas Htam Hinv Hent.
  - exists st. simpl in *. rewrite app_nil_r. by repeat split.
  - destruct Hfilas as (Hf & Hnum & Hfs). simpl in Hlen, Hent.
    rewrite <- app_assoc in Hent.
    destruct (compartidas_fila_completa N i f (i + 1) st _ ltac:(lia)
                ltac:(lia) Htam
                (inv_compartidas_impl N (fun a _ => (a < i)%nat)
                   (antes i (i + 1)) st
                   ltac:(intros a b _; unfold antes; lia) Hinv)
                Hnum Hent)
      as (st1 & Hpaso & Hent1 & HV1 & Hreg1 & Hinv1 & Htam1).
    assert (inv_compartidas N (fun a _ => (a < S i)%nat) st1) as Hinv1'.
    { eapply inv_compartidas_impl; [|exact Hinv1].
      intros a b _. unfold antes. lia. }
    destruct (IH (S i) st1 resto ltac:(lia) Hfs Htam1 Hinv1' Hent1)
      as (st' & Hrun & Hent' & HV & Hreg).
    exists st'. cbn [length seq for_].
    assert (for_ (range (i + 1) N) (fun j => configurar_compartida i j) st
            = Ok (tt, st1)) as Hfila
      by (unfold range; rewrite <- Hf; exact Hpaso).
    rewrite (bind_paso _ _ _ _ _ Hfila).
    split; [exact Hrun|]. split; [done|]. split; [congruence|].
    rewrite Hreg, Hreg1. simpl. by rewrite <- app_assoc.
Qed.

Lemma construir_bien_tecleado (c : tecleado) (resto : list linea) :
  bien_tecleado c ->
  exists st,
    construir (length (t_mallas c))
      (estado_inicial (length (t_mallas c)) (lineas_de c ++ resto))
    = Ok (tt, st)
    /\ entrada st = resto
    /\ vector_V st = map (fun m => valor_de (fst m)) (t_mallas c)
    /\ resistencias st = registro_de c.
Proof.
  intros (Hnum & Hlen & Hfilas).
  set (N := length (t_mallas c)) in *.
  destruct (mallas_completa N (t_mallas c) 0
              (estado_inicial N (lineas_de c ++ resto))
              (concat (t_compartidas c) ++ resto) ltac:(simpl; lia)
              (tamanos_inicial N _) (inv_mallas_inicial N _) Hnum)
    as (st1 & H1 & Hent1 & HV1 & Hreg1 & Hinv1 & Htam1).
  { unfold lineas_de. cbn [estado_inicial entrada]. by rewrite <- app_assoc. }
  destruct (compartidas_completa N (t_compartidas c) 0 st1 resto
              ltac:(simpl; lia) Hfilas Htam1
              (inv_mallas_compartidas N st1 Hinv1) Hent1)
    as (st2 & H2 & Hent2 & HV2 & Hreg2).
  exists st2. unfold construir, range. rewrite Nat.sub_0_r.
  rewrite (bind_paso _ _ _ _ _ H1). fold N in Hlen. rewrite Hlen in H2.
  split; [exact H2|]. split; [done|]. split.
  - rewrite HV2, HV1. cbn [estado_inicial vector_V].
    rewrite take_0, drop_ge by (rewrite length_replicate; simpl; lia).
    simpl. by rewrite app_nil_r.
  - rewrite Hreg2, Hreg1. done.
Qed.

(** ** Sums over the meshes *)

Lemma suma_seq_ext (f g : nat -> Q) (a n : nat) :
  (forall i, (a <= i < a + n)%nat -> f i == g i) ->
  suma_lista (map f (seq a n)) == suma_lista (map g (seq a n)).
Proof.
  revert a. induction n as [|n IH]; intros a Hfg; simpl; [reflexivity|].
  rewrite (Hfg a) by lia. rewrite (IH (S a)); [reflexivity|].
  intros i Hi. apply Hfg. lia.
Qed.

Lemma suma_indices_ext (N : nat) (f g : nat -> Q) :
  (forall i, (i < N)%nat -> f i == g i) ->
  suma_indices N f == suma_indices N g.
Proof. intros Hfg. apply suma_seq_ext. intros i Hi. apply Hfg. lia. Qed.

Lemma suma_indices_mas (N : nat) (f g : nat -> Q) :
  suma_indices N (fun i => f i + g i) == suma_indices N f + suma_indices N g.
Proof.
  unfold suma_indices. generalize 0%nat.
  induction N as [|N IH]; intros a; simpl; [ring|]. rewrite IH. ring.
Qed.

Lemma suma_indices_cero (N : nat) : suma_indices N (fun _ => 0) == 0.
Proof.
  unfold suma_indices. generalize 0%nat.
  induction N as [|N IH]; intros a; simpl; [reflexivity|]. rewrite IH. ring.
Qed.

Lemma suma_indices_por (N : nat) (c : Q) (f : nat -> Q) :
  suma_indices N (fun i => f i * c) == suma_indices N f * c.
Proof.
  unfold suma_indices. generalize 0%nat.
  induction N as [|N IH]; intros a; simpl; [ring|]. rewrite IH. ring.
Qed.

Lemma suma_seq_indicador (a n k : nat) (c : Q) :
  suma_lista (map (fun i => if decide (i = k) then c else 0) (seq a n))
  == if decide (a <= k < a + n)%nat then c else 0.
Proof.
  revert a. induction n as [|n IH]; intros a; simpl.
  - rewrite decide_False by lia. reflexivity.
  - rewrite IH. repeat case_decide; try lia; ring.
Qed.

Lemma suma_indices_indicador (N k : nat) (c : Q) :
  (k < N)%nat ->
  suma_indices N (fun i => if decide (i = k) then c else 0) == c.
Proof.
  intros Hk. unfold suma_indices. rewrite suma_seq_indicador.
  by rewrite decide_True by lia.
Qed.

Lemma suma_indices_indicador_doble (N a b : nat) (c : Q) :
  (a < N)%nat -> (b < N)%nat ->
  suma_indices N (fun i =>
    suma_indices N (fun j => if decide (i = a /\ j = b) then c else 0))
  == c.
Proof.
  intros Ha Hb.
  rewrite (suma_indices_ext N _ (fun i => if decide (i = a) then c else 0)).
  - by apply suma_indices_indicador.
  - intros i _. destruct (decide (i = a)) as [->|Hia].
    + rewrite (suma_indices_ext N _
                 (fun j => if decide (j = b) then c else 0)).
      * by apply suma_indices_indicador.
      * intros j _. repeat case_decide; try reflexivity; tauto.
    + rewrite (suma_indices_ext N _ (fun _ => 0)).
      * apply suma_indices_cero.
      * intros j _. case_decide; [tauto|reflexivity].
Qed.

(** ** The quadratic form of the built matrix *)

Lemma suma_valores_cons (sel : info -> bool) (k : string) (inf : info)
    (reg : dict info) :
  suma_valores sel ((k, inf) :: reg)
  == (if sel inf then valor inf else 0) + suma_valores sel reg.
Proof.
  unfold suma_valores, valores. simpl. destruct (sel inf); simpl; ring.
Qed.

Lemma celda_esperada_cons (k : string) (inf : info) (reg : dict info)
    (i j : nat) :
  celda_esperada ((k, inf) :: reg) i j
  == aporte inf i j + celda_esperada reg i j.
Proof.
  unfold celda_esperada, aporte, suma_propias, suma_compartidas_de,
    suma_compartidas_entre.
  case_decide; rewrite !suma_valores_cons; ring.
Qed.

Lemma celda_esperada_nil (i j : nat) : celda_esperada [] i j == 0.
Proof. unfold celda_esperada. case_decide; reflexivity. Qed.

(** Summed against the currents, one entry of the registry adds its own
    power: [r * I_a^2] for an own resistor, [r * (I_a - I_b)^2] for a
    shared one. *)
Lemma aporte_potencia (N : nat) (I : list Q) (par : string * info) :
  length I = N ->
  entrada_valida N par ->
  suma_indices N (fun i =>
    suma_indices N (fun j =>
      componente I i * aporte (snd par) i j * componente I j))
  == potencia_de I (snd par).
Proof.
  intros Hlen Hval. destruct par as [k [r t]].
  unfold entrada_valida, potencia_de, corriente_resistor in *.
  cbn [snd topo valor] in *. destruct t as [a|a b].
  - unfold indice_valido in Hval.
    rewrite np_getitem_valido by (unfold indice_valido; lia).
    unfold corriente_malla. fold (componente I (Z.to_nat a)).
    set (xa := componente I (Z.to_nat a)).
    rewrite (suma_indices_ext N _ (fun i =>
               suma_indices N (fun j =>
                 if decide (i = Z.to_nat a /\ j = Z.to_nat a)
                 then xa * r * xa else 0))).
    + rewrite suma_indices_indicador_doble by lia. ring.
    + intros i _. apply suma_indices_ext. intros j _.
      unfold aporte, es_propia_de, toca, entre. cbn [topo valor andb].
      destruct (Z.eqb_spec a (Z.of_nat i));
        repeat case_decide; subst xa; destruct_and?; subst;
        rewrite ?Nat2Z.id; try lia; try ring.
  - unfold indice_valido in Hval. destruct Hval as (Ha & Hb & Hab & Hr).
    rewrite !np_getitem_valido by (unfold indice_valido; lia).
    cbn [res_bind]. unfold corriente_malla.
    fold (componente I (Z.to_nat a)). fold (componente I (Z.to_nat b)).
    set (xa := componente I (Z.to_nat a)).
    set (xb := componente I (Z.to_nat b)).
    set (na := Z.to_nat a). set (nb := Z.to_nat b).
    rewrite (suma_indices_ext N _ (fun i =>
               suma_indices N (fun j =>
                 (if decide (i = na /\ j = na) then xa * r * xa else 0)
                 + (if decide (i = nb /\ j = nb) then xb * r * xb else 0)
                 + (if decide (i = na /\ j = nb) then - (xa * r * xb) else 0)
                 + (if decide (i = nb /\ j = na) then - (xb * r * xa) else 0)))).
    + rewrite (suma_indices_ext N _ (fun i =>
                 suma_indices N (fun j =>
                   if decide (i = na /\ j = na) then xa * r * xa else 0)
                 + suma_indices N (fun j =>
                   if decide (i = nb /\ j = nb) then xb * r * xb else 0)
                 + suma_indices N (fun j =>
                   if decide (i = na /\ j = nb) then - (xa * r * xb) else 0)
                 + suma_indices N (fun j =>
                   if decide (i = nb /\ j = na) then - (xb * r * xa) else 0)))
        by (intros i _; by rewrite !suma_indices_mas).
      rewrite !suma_indices_mas.
      rewrite !suma_indices_indicador_doble by (subst na nb; lia). ring.
    + intros i _. apply suma_indices_ext. intros j _.
      unfold aporte, es_propia_de, toca, entre, positiva.
      cbn [topo valor]. destruct (Qlt_le_dec 0 r) as [_|?]; [|lra].
      subst xa xb na nb.
      destruct (Z.eqb_spec a (Z.of_nat i)), (Z.eqb_spec b (Z.of_nat i)),
               (Z.eqb_spec a (Z.of_nat j)), (Z.eqb_spec b (Z.of_nat j));
        repeat case_decide; destruct_and?; subst; cbn [andb orb];
        rewrite ?Nat2Z.id; try lia; try ring.
Qed.

Lemma forma_esperada_potencias (N : nat) (I : list Q) (reg : dict info) :
  length I = N ->
  Forall (entrada_valida N) reg ->
  suma_indices N (fun i =>
    suma_indices N (fun j =>
      componente I i * celda_esperada reg i j * componente I j))
  == suma_lista (map (fun par => potencia_de I (snd par)) reg).
Proof.
  intros Hlen. induction 1 as [|[k inf] reg Hval _ IH].
  - simpl. rewrite (suma_indices_ext N _ (fun _ => 0)).
    + apply suma_indices_cero.
    + intros i _. rewrite (suma_indices_ext N _ (fun _ => 0)).
      * apply suma_indices_cero.
      * intros j _. rewrite celda_esperada_nil. ring.
  - cbn [map suma_lista fold_right]. fold (suma_lista).
    rewrite <- IH, <- (aporte_potencia N I (k, inf) Hlen Hval).
    cbn [snd]. rewrite <- suma_indices_mas.
    apply suma_indices_ext. intros i _.
    rewrite <- suma_indices_mas.
    apply suma_indices_ext. intros j _.
    rewrite celda_esperada_cons. ring.
Qed.

Lemma potencia_forma_cuadratica
    (N : nat) (lineas : list linea) (st : estado) (I : list Q) :
  construir N (estado_inicial N lineas) = Ok (tt, st) ->
  length I = N ->
  potencia_total (calcular_potencia (resistencias st) I)
  == forma_cuadratica N (matriz_R st) I.
Proof.
  intros Hrun Hlen.
  assert (NoDup (claves (resistencias st))) as Hnd.
  { eapply construir_claves_NoDup; [|exact Hrun]. constructor. }
  rewrite calcular_potencia_map, potencia_total_map by done.
  rewrite <- (forma_esperada_potencias N I _ Hlen
                (construir_entradas_validas N lineas st Hrun)).
  destruct (construir_inv N lineas st Hrun) as [Hcel _].
  unfold forma_cuadratica.
  apply suma_indices_ext. intros i Hi.
  apply suma_indices_ext. intros j Hj.
  destruct (Hcel i j Hi Hj) as (x & Hx & Hxv).
  unfold celda. rewrite Hx. simpl. rewrite Hxv. reflexivity.
Qed.

(** ** Properties of complete descriptions *)

Lemma bien_tecleado_escenario_2 : bien_tecleado tecleado_escenario_2.
Proof.
  unfold bien_tecleado, tecleado_escenario_2, numerica. simpl.
  repeat split; repeat constructor; discriminate.
Qed.

(** X9: a completely typed description is read to the end without error:
    the build ends normally, it has consumed exactly the lines of the
    description (what follows them is left unread), and [vector_V] holds the
    sources of the meshes in order, as typed. *)
Theorem construir_lee_todo (c : tecleado) (resto : list linea) :
  bien_tecleado c ->
  exists st,
    construir (length (t_mallas c))
      (estado_inicial (length (t_mallas c)) (lineas_de c ++ resto))
    = Ok (tt, st)
    /\ entrada st = resto
    /\ vector_V st = map (fun m => valor_de (fst m)) (t_mallas c).
Proof.
  intros Hc.
  destruct (construir_bien_tecleado c resto Hc) as (st & H1 & H2 & H3 & _).
  by exists st.
Qed.

Lemma construir_lee_todo_witness :
  exists st,
    construir 2 (estado_inicial 2 (lineas_escenario_2 ++ [NoNumerica]))
    = Ok (tt, st)
    /\ entrada st = [NoNumerica]
    /\ vector_V st = [10; 0].
Proof.
  apply (construir_lee_todo tecleado_escenario_2 [NoNumerica]).
  exact bien_tecleado_escenario_2.
Defined.

(** X10: for a completely typed description the registry holds, in the
    order of the lines, one entry per own resistor, named [R<i+1>_p<j+1>]
    with its value and its mesh, followed by one entry per shared value
    above [0], named [R_c<i+1>-<j+1>] with its value and its two meshes;
    shared values that are not above [0] leave no entry, and no entry
    replaces another. *)
Theorem construir_registro_tecleado
    (c : tecleado) (resto : list linea) (st : estado) :
  bien_tecleado c ->
  construir (length (t_mallas c))
    (estado_inicial (length (t_mallas c)) (lineas_de c ++ resto))
  = Ok (tt, st) ->
  resistencias st = registro_de c.
Proof.
  intros Hc Hrun.
  destruct (construir_bien_tecleado c resto Hc) as (st' & H1 & _ & _ & H4).
  rewrite Hrun in H1. by simplify_eq.
Qed.

Lemma construir_registro_tecleado_witness :
  resistencias estado_escenario_2 = registro_de tecleado_escenario_2.
Proof.
  apply (construir_registro_tecleado tecleado_escenario_2 []
           estado_escenario_2).
  - exact bien_tecleado_escenario_2.
  - vm_compute. reflexivity.
Defined.

(** ** Power balance *)

(** X11: for any currents, one per mesh, the total of the powers the
    resolver reports equals the quadratic form of the built matrix at those
    currents (the sum over [i], [j] of [I_i * R_ij * I_j]); hence, when no
    registered resistance is negative, that quadratic form is never
    negative. *)
Theorem potencia_total_forma_cuadratica
    (N : nat) (lineas : list linea) (st : estado) (I : list Q) :
  construir N (estado_inicial N lineas) = Ok (tt, st) ->
  length I = N ->
  potencia_total (calcular_potencia (resistencias st) I)
  == forma_cuadratica N (matriz_R st) I
  /\ (Forall (fun par => 0 <= valor (snd par)) (resistencias st) ->
      0 <= forma_cuadratica N (matriz_R st) I).
Proof.
  intros Hrun Hlen.
  pose proof (potencia_forma_cuadratica N lineas st I Hrun Hlen) as Heq.
  split; [exact Heq|]. intros Hpos. rewrite <- Heq.
  assert (NoDup (claves (resistencias st))) as Hnd.
  { eapply construir_claves_NoDup; [|exact Hrun]. constructor. }
  rewrite calcular_potencia_map, potencia_total_map by done.
  clear Heq Hnd. induction Hpos as [|[k inf] reg Hr _ IH]; simpl; [lra|].
  pose proof (potencia_de_no_negativa I inf Hr). lra.
Qed.

Lemma potencia_total_forma_cuadratica_witness :
  potencia_total (calcular_potencia (resistencias estado_escenario_2) [3; 1])
  == forma_cuadratica 2 (matriz_R estado_escenario_2) [3; 1]
  /\ 0 <= forma_cuadratica 2 (matriz_R estado_escenario_2) [3; 1].
Proof.
  destruct (potencia_total_forma_cuadratica 2 lineas_escenario_2
              estado_escenario_2 [3; 1]) as [Heq Hpos].
  - vm_compute. reflexivity.
  - reflexivity.
  - split; [exact Heq|]. apply Hpos.
    repeat constructor; vm_compute; discriminate.
Defined.

Lemma forma_cuadratica_filas (N : nat) (M : list (list Q)) (I : list Q) :
  forma_cuadratica N M I
  == suma_indices N (fun i => fila_por_corrientes N M I i * componente I i).
Proof.
  unfold forma_cuadratica, fila_por_corrientes.
  apply suma_indices_ext. intros i _.
  rewrite <- suma_indices_por.
  apply suma_indices_ext. intros j _. ring.
Qed.

(** X12: power balance.  When the currents solve [R * I = V] for the
    matrix and the vector of a completed build, the total of the powers the
    resolver reports equals the power the sources deliver, the sum of
    [V_i * I_i] over the meshes. *)
Theorem balance_de_potencia
    (N : nat) (lineas : list linea) (st : estado) (I : list Q) :
  construir N (estado_inicial N lineas) = Ok (tt, st) ->
  length I = N ->
  resuelve N (matriz_R st) (vector_V st) I ->
  potencia_total (calcular_potencia (resistencias st) I)
  == suma_indices N (fun i => componente (vector_V st) i * componente I i).
Proof.
  intros Hrun Hlen Hsol.
  rewrite (potencia_forma_cuadratica N lineas st I Hrun Hlen).
  rewrite forma_cuadratica_filas.
  apply suma_indices_ext. intros i Hi. by rewrite (Hsol i Hi).
Qed.

Lemma balance_de_potencia_witness :
  potencia_total
    (calcular_potencia (resistencias estado_escenario_2) [40 # 11; 10 # 11])
  == suma_indices 2 (fun i =>
       componente (vector_V estado_escenario_2) i
       * componente [40 # 11; 10 # 11] i).
Proof.
  apply (balance_de_potencia 2 lineas_escenario_2 estado_escenario_2
           [40 # 11; 10 # 11]).
  - vm_compute. reflexivity.
  - reflexivity.
  - intros i Hi. destruct i as [|[|i]]; [reflexivity|reflexivity|lia].
Defined.

(** ** Shared values that are not above zero *)

(** X13: a shared value that is not above [0], negative values included, is
    accepted without any message: the step ends normally, having read its
    line, and leaves the matrix, the vector and the registry as they
    were. *)
Theorem compartida_no_positiva_sin_efecto
    (i j : nat) (st : estado) (l : linea) (resto : list linea) (r_comp : Q) :
  entrada st = l :: resto ->
  py_float l = Ok r_comp ->
  r_comp <= 0 ->
  configurar_compartida i j st
  = Ok (tt, mk_estado resto (matriz_R st) (vector_V st) (resistencias st)
              (suma_r_propias st)).
Proof.
  intros Hent Hl Hr. unfold configurar_compartida, bind, input, lift.
  rewrite Hent, Hl.
  destruct (Qlt_le_dec 0 r_comp) as [Hpos|_]; [lra|done].
Qed.

Lemma compartida_no_positiva_sin_efecto_witness :
  configurar_compartida 0 1
    (mk_estado [Decimal (-5)] [[2; 0]; [0; 3]] [10; 0]
       [("R1_p1", mk_info 2 (Malla 0)); ("R2_p1", mk_info 3 (Malla 1))] 3)
  = Ok (tt, mk_estado [] [[2; 0]; [0; 3]] [10; 0]
              [("R1_p1", mk_info 2 (Malla 0)); ("R2_p1", mk_info 3 (Malla 1))]
              3).
Proof.
  apply (compartida_no_positiva_sin_efecto 0 1
           (mk_estado [Decimal (-5)] [[2; 0]; [0; 3]] [10; 0]
              [("R1_p1", mk_info 2 (Malla 0)); ("R2_p1", mk_info 3 (Malla 1))]
              3)
           (Decimal (-5)) [] (-5)).
  - reflexivity.
  - reflexivity.
  - vm_compute. discriminate.
Defined.

(** ** Row sums of the built matrix *)

Lemma aporte_fila (N : nat) (par : string * info) (i : nat) :
  entrada_valida N par -> (i < N)%nat ->
  suma_indices N (fun j => aporte (snd par) i j)
  == if es_propia_de i (snd par) then valor (snd par) else 0.
Proof.
  intros Hval Hi. destruct par as [k [r t]].
  unfold entrada_valida, indice_valido in Hval. cbn [snd topo valor] in *.
  destruct t as [a|a b].
  - rewrite (suma_indices_ext N _ (fun j =>
               if decide (j = i)
               then (if es_propia_de i (mk_info r (Malla a)) then r else 0)
               else 0)).
    + by apply suma_indices_indicador.
    + intros j _. unfold aporte, toca, entre. cbn [topo valor andb].
      repeat case_decide; subst; try lia; ring.
  - destruct Hval as (Ha & Hb & Hab & Hr).
    set (na := Z.to_nat a). set (nb := Z.to_nat b).
    rewrite (suma_indices_ext N _ (fun j =>
               (if decide (j = i)
                then (if decide (i = na \/ i = nb) then r else 0) else 0)
               + (if decide (j = nb)
                  then (if decide (i = na) then - r else 0) else 0)
               + (if decide (j = na)
                  then (if decide (i = nb) then - r else 0) else 0))).
    + rewrite !suma_indices_mas.
      rewrite !suma_indices_indicador by (subst na nb; lia).
      unfold es_propia_de. cbn [topo].
      repeat case_decide; subst na nb; try lia; ring.
    + intros j _. unfold aporte, es_propia_de, toca, entre, positiva.
      cbn [topo valor]. destruct (Qlt_le_dec 0 r) as [_|?]; [|lra].
      subst na nb.
      destruct (Z.eqb_spec a (Z.of_nat i)), (Z.eqb_spec b (Z.of_nat i)),
               (Z.eqb_spec a (Z.of_nat j)), (Z.eqb_spec b (Z.of_nat j));
        repeat case_decide; destruct_and?; subst; cbn [andb orb];
        rewrite ?Nat2Z.id in *; try lia; try ring.
Qed.

Lemma suma_propias_cons (k : string) (inf : info) (reg : dict info)
    (i : nat) :
  suma_propias ((k, inf) :: reg) i
  == (if es_propia_de i inf then valor inf else 0) + suma_propias reg i.
Proof. apply suma_valores_cons. Qed.

Lemma fila_esperada_propias (N : nat) (reg : dict info) (i : nat) :
  Forall (entrada_valida N) reg -> (i < N)%nat ->
  suma_indices N (fun j => celda_esperada reg i j) == suma_propias reg i.
Proof.
  intros Hreg Hi. induction Hreg as [|[k inf] reg Hval _ IH].
  - rewrite (suma_indices_ext N _ (fun _ => 0)).
    + rewrite suma_indices_cero. reflexivity.
    + intros j _. apply celda_esperada_nil.
  - rewrite suma_propias_cons, <- IH,
      <- (aporte_fila N (k, inf) i Hval Hi).
    cbn [snd]. rewrite <- suma_indices_mas.
    apply suma_indices_ext. intros j _. apply celda_esperada_cons.
Qed.

(** X14: in the matrix of a completed build the cells of row [i] add up
    to the sum of the own resistors of mesh [i]: what a shared resistor adds
    to the diagonal it takes from the cell of the other mesh. *)
Theorem fila_suma_propias
    (N : nat) (lineas : list linea) (st : estado) (i : nat) :
  construir N (estado_inicial N lineas) = Ok (tt, st) ->
  (i < N)%nat ->
  suma_indices N (fun j => celda (matriz_R st) i j)
  == suma_propias (resistencias st) i.
Proof.
  intros Hrun Hi.
  rewrite <- (fila_esperada_propias N _ i
                (construir_entradas_validas N lineas st Hrun) Hi).
  destruct (construir_inv N lineas st Hrun) as [Hcel _].
  apply suma_indices_ext. intros j Hj.
  destruct (Hcel i j Hi Hj) as (x & Hx & Hxv).
  unfold celda. by rewrite Hx.
Qed.

Lemma fila_suma_propias_witness :
  suma_indices 2 (fun j => celda (matriz_R estado_escenario_2) 1 j)
  == suma_propias (resistencias estado_escenario_2) 1.
Proof.
  apply (fila_suma_propias 2 lineas_escenario_2 estado_escenario_2 1).
  - vm_compute. reflexivity.
  - lia.
Defined.
